(** * go-sarah-githubconfig: the GitHub-backed [sarah.ConfigWatcher]

    A shallow embedding of [watcher.go].  The watcher is one goroutine
    ([operate]) that owns two maps, [cache] and [subscription], and handles
    one message at a time.  Each [case] of its [select] is embedded as a pure
    function from the maps before the message to the maps after it, together
    with what the case sends on [req.err], which goroutines it starts with
    [go callback()] and for which bot types it calls [w.get].

    Go strings are byte strings and are embedded as [string]; Go maps are
    embedded as [gmap]; a [nil] map reads like the empty map. *)

From Stdlib Require Import String Ascii List ZArith Lia.
From stdpp Require Import gmap strings list fin_maps.

Local Open Scope string_scope.
Local Open Scope list_scope.

(** ** Errors *)

(** The error values that flow through the package: [errors.New] and
    [fmt.Errorf] without [%w] build a plain message, [fmt.Errorf] with [%w]
    keeps its format and the wrapped cause, and [sarah.ConfigNotFoundError]
    carries the bot type and the id. *)
Inductive error : Type :=
| errorString (s : string)
| wrapError (format : string) (err : error)
| ConfigNotFoundError (BotType ID : string).

(** [var SubscriptionTimeout = errors.New("timeout")] *)
Definition SubscriptionTimeout : error := errorString "timeout".

(** ** Config *)

(** [time.Duration] is a count of nanoseconds. *)
Module time.
Definition Duration := Z.
Definition Nanosecond : Duration := 1%Z.
Definition Microsecond : Duration := (1000 * Nanosecond)%Z.
Definition Millisecond : Duration := (1000 * Microsecond)%Z.
Definition Second : Duration := (1000 * Millisecond)%Z.
Definition Minute : Duration := (60 * Second)%Z.
End time.

Record Config : Type := mkConfig {
  Owner : string;
  Name : string;
  BaseDir : string;
  Branch : string;
  Interval : time.Duration;
  TimeOut : time.Duration
}.

Definition NewConfig (owner name baseDir : string) : Config :=
  {| Owner := owner;
     Name := name;
     BaseDir := baseDir;
     Branch := "master";
     Interval := (1 * time.Minute)%Z;
     TimeOut := (5 * time.Second)%Z |}.

(** ** Files and the GraphQL answer *)

Abbreviation BotType := string (only parsing).

Record file : Type := mkFile {
  id : string;
  fileName : string;
  extension : string;
  objectID : string;
  content : string
}.

(** One element of [q.Repository.Object.Tree.Entries], flattened:
    [entry.Name], [entry.Object.Blob.Oid], [entry.Object.Blob.Text]. *)
Record entry : Type := mkEntry {
  entry_Name : string;
  entry_Oid : string;
  entry_Text : string
}.

(** The variables of the GraphQL query. *)
Record variables : Type := mkVariables {
  var_owner : string;
  var_name : string;
  var_expression : string
}.

(** [querier.Query(ctx, q, variables)]: either an error, or the entries the
    call has written into [q]. *)
Definition querier : Type := variables -> error + list entry.

(** ** Library string functions used by [get] *)

Definition byte_eqb (a b : ascii) : bool := Ascii.eqb a b.

(** [strings.HasPrefix] and [strings.TrimPrefix]. *)
Definition HasPrefix (s pre : string) : bool := String.prefix pre s.

Definition TrimPrefix (s pre : string) : string :=
  if HasPrefix s pre
  then substring (String.length pre) (String.length s - String.length pre) s
  else s.

(** [strings.HasSuffix] and [strings.TrimSuffix]. *)
Definition HasSuffix (s suffix : string) : bool :=
  (String.length suffix <=? String.length s)%nat
  && String.eqb
       (substring (String.length s - String.length suffix)
                  (String.length suffix) s)
       suffix.

Definition TrimSuffix (s suffix : string) : string :=
  if HasSuffix s suffix
  then substring 0 (String.length s - String.length suffix) s
  else s.

(** [filepath.Ext], with [/] the path separator: scan from the last byte
    towards the first, stop at a separator, return the suffix that starts at
    the first dot met.  The argument [n] is [i + 1] of the Go loop. *)
Fixpoint Ext_loop (path : string) (n : nat) : string :=
  match n with
  | O => ""
  | S i =>
      match String.get i path with
      | Some c =>
          if byte_eqb c "/" then ""
          else if byte_eqb c "."
               then substring i (String.length path - i) path
               else Ext_loop path i
      | None => ""
      end
  end.

Definition Ext (path : string) : string := Ext_loop path (String.length path).

(** ** [get]: the body after the query *)

(** The [file] built from one entry. *)
Definition file_of_entry (e : entry) : file :=
  let name := entry_Name e in
  let extension := Ext name in
  let id := TrimSuffix name extension in
  {| id := id;
     fileName := name;
     extension := extension;
     objectID := entry_Oid e;
     content := entry_Text e |}.

(** [for _, entry := range entries { ...; files[id] = cfg }] *)
Definition collect_into (files : gmap string file) (entries : list entry)
  : gmap string file :=
  foldl (fun files e => let cfg := file_of_entry e in <[id cfg := cfg]> files)
        files entries.

(** [files := map[string]*file{}], then the loop. *)
Definition collect (entries : list entry) : gmap string file :=
  collect_into ∅ entries.

(** ** The watcher *)

Module githubconfig.

Section Watcher.

(** What the package takes from outside.  [Out] is the value behind the
    [out interface{}] of a read and [callback] the [func()] of a
    subscription.  [yaml.Unmarshal] and [json.Unmarshal] take the content
    and the target and leave the target as they return it, with their
    error; [path.Join] joins the base directory and the bot type. *)
Variable Out : Type.
Variable callback : Type.
Variable yaml_Unmarshal json_Unmarshal : string -> Out -> Out * option error.
Variable path_Join : string -> string -> string.

(** *** [read] *)

Definition read (f : file) (out : Out) : Out * option error :=
  if String.eqb (extension f) ".yml" || String.eqb (extension f) ".yaml"
  then yaml_Unmarshal (content f) out
  else if String.eqb (extension f) ".json"
  then json_Unmarshal (content f) out
  else (out,
        Some (errorString ("unsupported file extension for " +:+ id f
                           +:+ ": " +:+ extension f))).

(** *** [New] and its options *)

(** [githubv4.NewClient] over the OAuth2 client of a token. *)
Variable githubv4_NewClient : string -> querier.

(** The fields of [watcher] that are not channels.  [client] is an
    interface value: [None] is [nil]. *)
Record watcher : Type := mkWatcher {
  client : option querier;
  config : Config
}.

Definition Option : Type := watcher -> watcher.

(** The interface value is not [nil] whatever pointer is given. *)
Definition WithClient (c : querier) : Option :=
  fun w => {| client := Some c; config := config w |}.

Definition WithToken (token : string) : Option :=
  fun w => {| client := Some (githubv4_NewClient token); config := config w |}.

(** [for _, opt := range opts { opt(w) }] *)
Definition apply_options (opts : list Option) (w : watcher) : watcher :=
  foldl (fun w opt => opt w) w opts.

Definition New (cfg : Config) (opts : list Option) : error + watcher :=
  let w := apply_options opts {| client := None; config := cfg |} in
  match client w with
  | None =>
      inl (errorString
             "githubv4.Client must be derived from WithClient or WithToken option")
  | Some _ => inr w
  end.

(** *** [get] *)

(** The configuration of the running watcher.  It is never written after
    [New]. *)
Variable cfg : Config.

(** Lines 178 to 184: the variables of the query for a bot type. *)
Definition query_variables (botType : BotType) : variables :=
  let dir := path_Join (BaseDir cfg) botType in
  let expression := Branch cfg +:+ ":" +:+ TrimPrefix dir "/" in
  {| var_owner := Owner cfg;
     var_name := Name cfg;
     var_expression := expression |}.

(** [w.get(ctx, botType)], with [q] the client as it answers at the time of
    the call. *)
Definition get (q : querier) (botType : BotType) : error + gmap string file :=
  match q (query_variables botType) with
  | inl err => inl (wrapError "failed to query Github API: %w" err)
  | inr entries => inr (collect entries)
  end.

(** *** [operate] *)

(** The two maps [operate] owns. *)
Record state : Type := mkState {
  cache : gmap string (gmap string file);
  subscription : gmap string (gmap string callback)
}.

(** [cache := map[...]{}; subscription := map[...]{}] *)
Definition initial : state := {| cache := ∅; subscription := ∅ |}.

(** The cases of the [select]. *)
Inductive event : Type :=
| Done
| Subscribe (botType : BotType) (id : string) (cb : callback)
| Unsubscribe (botType : BotType)
| ReadRequest (botType : BotType) (id : string) (out : Out)
| Tick.

(** A goroutine started by [go callback()], with the bot type and the id
    of the subscription it was taken from. *)
Record spawn : Type := mkSpawn {
  spawn_botType : BotType;
  spawn_id : string;
  spawn_callback : callback
}.

(** What one case does: the maps afterwards; for a request, the target as
    it is left and the value sent on [req.err]; the goroutines started; the
    bot types [w.get] was called for, in call order; whether the loop
    returned. *)
Record outcome : Type := mkOutcome {
  next : state;
  reply : option (Out * option error);
  started : list spawn;
  fetched : list BotType;
  stopped : bool
}.

Definition on_done (s : state) : outcome :=
  {| next := s; reply := None; started := []; fetched := []; stopped := true |}.

Definition on_subscription (s : state) (botType : BotType) (id : string)
           (cb : callback) : outcome :=
  let subscription1 :=
    match subscription s !! botType with
    | Some _ => subscription s
    | None => <[botType := ∅]> (subscription s)
    end in
  let subscription2 :=
    <[botType := <[id := cb]> (default ∅ (subscription1 !! botType))]>
      subscription1 in
  {| next := {| cache := cache s; subscription := subscription2 |};
     reply := None; started := []; fetched := []; stopped := false |}.

Definition on_unsubscription (s : state) (botType : BotType) : outcome :=
  {| next := {| cache := delete botType (cache s);
                subscription := delete botType (subscription s) |};
     reply := None; started := []; fetched := []; stopped := false |}.

(** Lines 121 to 130: the lookup of [req.id] in [files] and the reply. *)
Definition answer (files : gmap string file) (botType : BotType)
           (id : string) (out : Out) : Out * option error :=
  match files !! id with
  | None => (out, Some (ConfigNotFoundError botType id))
  | Some f => read f out
  end.

(** [case req := <-w.request].  [files] is the variable of line 109; on a
    miss it is the nil map.  The [files] that line 113 declares inside the
    [if] block is [fetched_files] here: it is stored in the cache and goes
    out of scope with the block, so line 121 reads the outer [files]. *)
Definition on_request (q : querier) (s : state) (botType : BotType)
           (id : string) (out : Out) : outcome :=
  let files := default ∅ (cache s !! botType) in
  match cache s !! botType with
  | Some _ =>
      {| next := s;
         reply := Some (answer files botType id out);
         started := []; fetched := []; stopped := false |}
  | None =>
      let cache1 := <[botType := ∅]> (cache s) in
      match get q botType with
      | inl err =>
          {| next := {| cache := cache1; subscription := subscription s |};
             reply := Some (out, Some err);
             started := []; fetched := [botType]; stopped := false |}
      | inr fetched_files =>
          let cache2 := <[botType := fetched_files]> cache1 in
          {| next := {| cache := cache2; subscription := subscription s |};
             reply := Some (answer files botType id out);
             started := []; fetched := [botType]; stopped := false |}
      end
  end.

(** Line 147: [!ok || old.objectID != f.objectID], with [cached] the map
    [cache[botType]]. *)
Definition changed (cached : gmap string file) (f : file) : bool :=
  match cached !! id f with
  | None => true
  | Some old => negb (String.eqb (objectID old) (objectID f))
  end.

(** Lines 144 to 154, for one subscription. *)
Definition notify_one (botType : BotType) (files cached : gmap string file)
           (sub : string * callback) : option spawn :=
  match files !! sub.1 with
  | Some f =>
      if changed cached f
      then Some {| spawn_botType := botType; spawn_id := sub.1;
                   spawn_callback := sub.2 |}
      else None
  | None => None
  end.

(** Lines 144 to 154.  Go ranges over a map in an order it does not fix;
    [map_to_list] fixes one, and each key is visited once. *)
Definition notify (botType : BotType) (files cached : gmap string file)
           (sub : gmap string callback) : list spawn :=
  omap (notify_one botType files cached) (map_to_list sub).

(** The accumulator of the loop of line 133: the cache, the goroutines
    started and the calls of [w.get] so far. *)
Definition tick_acc : Type :=
  gmap string (gmap string file) * list spawn * list BotType.

(** Lines 134 to 155: the body of the loop for one bot type. *)
Definition reconcile (q : querier) (acc : tick_acc)
           (kv : BotType * gmap string callback) : tick_acc :=
  let '(cache0, gos, calls) := acc in
  let botType := kv.1 in
  let sub := kv.2 in
  match get q botType with
  | inl _ => (cache0, gos, calls ++ [botType])
  | inr files =>
      let cache1 :=
        match cache0 !! botType with
        | Some _ => cache0
        | None => <[botType := files]> cache0
        end in
      let now := notify botType files (default ∅ (cache1 !! botType)) sub in
      (<[botType := files]> cache1, gos ++ now, calls ++ [botType])
  end.

(** [case <-ticker.C] *)
Definition on_tick (q : querier) (s : state) : outcome :=
  let '(cache', gos, calls) :=
    foldl (reconcile q) (cache s, [], []) (map_to_list (subscription s)) in
  {| next := {| cache := cache'; subscription := subscription s |};
     reply := None; started := gos; fetched := calls; stopped := false |}.

(** One turn of the [for { select { ... } }] loop. *)
Definition handle (q : querier) (ev : event) (s : state) : outcome :=
  match ev with
  | Done => on_done s
  | Subscribe botType id cb => on_subscription s botType id cb
  | Unsubscribe botType => on_unsubscription s botType
  | ReadRequest botType id out => on_request q s botType id out
  | Tick => on_tick q s
  end.

(** The loop over a finite run of messages, each with the client as it
    answers while the message is handled.  The loop returns at [Done]. *)
Fixpoint run (msgs : list (querier * event)) (s : state)
  : state * list outcome :=
  match msgs with
  | [] => (s, [])
  | (q, ev) :: rest =>
      let o := handle q ev s in
      if stopped o then (next o, [o])
      else let '(s', os) := run rest (next o) in (s', o :: os)
  end.

End Watcher.

Arguments mkState {callback} _ _.
Arguments cache {callback} _.
Arguments subscription {callback} _.
Arguments initial {callback}.
Arguments Done {Out callback}.
Arguments Subscribe {Out callback} _ _ _.
Arguments Unsubscribe {Out callback} _.
Arguments ReadRequest {Out callback} _ _ _.
Arguments Tick {Out callback}.
Arguments mkSpawn {callback} _ _ _.
Arguments spawn_botType {callback} _.
Arguments spawn_id {callback} _.
Arguments spawn_callback {callback} _.
Arguments mkOutcome {Out callback} _ _ _ _ _.
Arguments next {Out callback} _.
Arguments reply {Out callback} _.
Arguments started {Out callback} _.
Arguments fetched {Out callback} _.
Arguments stopped {Out callback} _.
Arguments notify_one {callback} _ _ _ _.
Arguments notify {callback} _ _ _ _.

End githubconfig.

Import githubconfig.

(** How many of the goroutines in [gos] were started for the subscription
    of [id] under [botType]. *)
Definition dispatches {callback : Type} (botType : BotType) (id : string)
           (gos : list (spawn callback)) : nat :=
  length (List.filter
            (fun g => String.eqb (spawn_botType g) botType
                      && String.eqb (spawn_id g) id)
            gos).


(** [subscription[botType][id]]: the callback registered for an id under a
    bot type, if any. *)
Definition callback_of {callback : Type} (s : state callback)
           (botType : BotType) (id : string) : option callback :=
  match subscription s !! botType with
  | Some sub => sub !! id
  | None => None
  end.

(** A byte string without a dot and without a path separator. *)
Fixpoint plain (s : string) : bool :=
  match s with
  | EmptyString => true
  | String c rest =>
      negb (byte_eqb c "/") && negb (byte_eqb c ".") && plain rest
  end.


(** The messages that leave the cache entry of [botType] as it is:
    subscriptions, requests, and unsubscriptions of other bot types. *)
Definition retains {Out callback : Type} (botType : BotType)
           (m : querier * event Out callback) : Prop :=
  match m.2 with
  | Subscribe _ _ _ => True
  | Unsubscribe botType' => botType' <> botType
  | ReadRequest _ _ _ => True
  | Tick => False
  | Done => False
  end.

(** Every file of the cache sits under its own id. *)
Definition keyed (c : gmap string (gmap string file)) : Prop :=
  forall botType files k f,
    c !! botType = Some files -> files !! k = Some f -> id f = k.

(** Every bot type of the subscription table has at least one callback. *)
Definition inhabited {callback : Type}
           (m : gmap string (gmap string callback)) : Prop :=
  forall botType sub, m !! botType = Some sub -> sub <> ∅.

(** ** A concrete watcher

    The watcher of the example application, for the bot type [slackBot] and
    the command [hello] of the example plugin, whose configuration has the one
    field [Message]. *)

Module Hello.

(** The target of a read: the [Message] of a [hello.Config]. *)
Definition Out : Type := string.

(** Callbacks, told apart by a number. *)
Definition callback : Type := nat.

(** Stand-ins for the two decoders: the YAML one is enough for a document
    that is the one line [message: ...], the JSON one for the empty object,
    which sets no field. *)
Definition yaml_Unmarshal (content : string) (out : Out) : Out * option error :=
  if String.prefix "message: " content
  then (substring 9 (String.length content - 9) content, None)
  else (out, Some (errorString "yaml: unmarshal errors")).

Definition json_Unmarshal (content : string) (out : Out) : Out * option error :=
  if String.eqb content "{}"
  then (out, None)
  else (out, Some (errorString "invalid character looking for beginning of value")).

(** [path.Join] on two clean, non-empty elements. *)
Definition path_Join (a b : string) : string := a +:+ "/" +:+ b.

Definition cfg : Config := NewConfig "oklahomer" "go-sarah-githubconfig-example" "bot/config".

Definition hello_abc : entry := mkEntry "hello.yml" "abc" "message: hi".
Definition hello_def : entry := mkEntry "hello.yml" "def" "message: bye".
Definition hello_json : entry := mkEntry "hello.json" "123" "{}".

(** A repository that holds [entries] under [bot/config/slackBot]. *)
Definition remote (entries : list entry) : querier :=
  fun v =>
    if String.eqb (var_expression v) "master:bot/config/slackBot"
    then inr entries
    else inl (errorString "Could not resolve to a node").

(** A client whose every query fails. *)
Definition offline : querier :=
  fun _ => inl (errorString "connection refused").

Definition query_variables := query_variables path_Join cfg.
Definition get := get path_Join cfg.
Definition read := read Out yaml_Unmarshal json_Unmarshal.
Definition on_request :=
  on_request Out callback yaml_Unmarshal json_Unmarshal path_Join cfg.
Definition on_tick := on_tick Out callback path_Join cfg.
Definition handle := handle Out callback yaml_Unmarshal json_Unmarshal path_Join cfg.
Definition run := run Out callback yaml_Unmarshal json_Unmarshal path_Join cfg.

(** One subscription, of callback 7 to [hello] under [slackBot]. *)
Definition watching : state callback :=
  next (handle offline (Subscribe "slackBot" "hello" 7) initial).

(** The same, with [hello_abc] cached. *)
Definition watching_abc : state callback :=
  {| cache := {[ "slackBot" := collect [hello_abc] ]};
     subscription := subscription watching |}.

Definition on_subscription := on_subscription Out callback.
Definition on_unsubscription := on_unsubscription Out callback.

Definition bye_xyz : entry := mkEntry "bye.json" "xyz" "{}".

(** A client per token: the empty token gets nowhere. *)
Definition NewClient (token : string) : querier :=
  if String.eqb token "" then offline else remote [hello_abc].

End Hello.

(** * Properties *)

(** ** Byte strings *)

Lemma app_String (c : ascii) (a b : string) :
  String c a +:+ b = String c (a +:+ b).
Proof. reflexivity. Qed.

Lemma app_empty_r (a : string) : a +:+ "" = a.
Proof.
  induction a as [|c a IH]; [reflexivity|]. now rewrite app_String, IH.
Qed.

Lemma substring_whole (s : string) : substring 0 (String.length s) s = s.
Proof. induction s as [|c s IH]; simpl; [reflexivity | now rewrite IH]. Qed.

Lemma substring_split (s : string) (i : nat) :
  i <= String.length s ->
  substring 0 i s +:+ substring i (String.length s - i) s = s.
Proof.
  revert i. induction s as [|c s IH]; intros i Hi; simpl in *.
  - destruct i; [reflexivity | lia].
  - destruct i as [|i]; simpl.
    + now rewrite substring_whole.
    + rewrite app_String, IH by lia. reflexivity.
Qed.

Lemma length_app_string (a b : string) :
  String.length (a +:+ b) = String.length a + String.length b.
Proof.
  induction a as [|c a IH]; [reflexivity|].
  rewrite app_String. simpl. now rewrite IH.
Qed.

Lemma substring_app_r (a b : string) :
  substring (String.length a) (String.length b) (a +:+ b) = b.
Proof.
  induction a as [|c a IH]; [apply substring_whole|].
  rewrite app_String. simpl. exact IH.
Qed.

Lemma substring_app_l (a b : string) :
  substring 0 (String.length a) (a +:+ b) = a.
Proof.
  induction a as [|c a IH].
  - destruct b; reflexivity.
  - rewrite app_String. simpl. now rewrite IH.
Qed.

(** A suffix of a string is trimmed off it. *)
Lemma TrimSuffix_app (a b : string) : TrimSuffix (a +:+ b) b = a.
Proof.
  unfold TrimSuffix, HasSuffix. rewrite length_app_string.
  replace (String.length a + String.length b - String.length b)
    with (String.length a) by lia.
  rewrite substring_app_r, String.eqb_refl, substring_app_l.
  destruct (String.length b <=? String.length a + String.length b)%nat eqn:E;
    [reflexivity|].
  apply Nat.leb_gt in E. lia.
Qed.

(** The extension is the empty string or the part of the name from one of
    its dots on. *)
Lemma Ext_loop_shape (path : string) (n : nat) :
  Ext_loop path n = ""
  \/ exists i, i < n /\ String.get i path = Some "."%char
               /\ Ext_loop path n = substring i (String.length path - i) path.
Proof.
  induction n as [|n IH]; simpl; [now left|].
  destruct (String.get n path) as [c|] eqn:G; [|now left].
  destruct (byte_eqb c "/") eqn:E1; [now left|].
  destruct (byte_eqb c ".") eqn:E2.
  - right. exists n. apply Ascii.eqb_eq in E2. subst c. auto.
  - destruct IH as [IH | (i & Hi & Hg & IH)]; [now left|].
    right. exists i. split; [lia | auto].
Qed.

(** The name is its id followed by its extension. *)
Lemma TrimSuffix_Ext (name : string) :
  TrimSuffix name (Ext name) +:+ Ext name = name.
Proof.
  unfold Ext.
  destruct (Ext_loop_shape name (String.length name)) as [E | (i & Hi & _ & E)];
    rewrite E.
  - rewrite <- (app_empty_r name) at 1.
    rewrite TrimSuffix_app. apply app_empty_r.
  - rewrite <- (substring_split name i) at 1 by lia.
    rewrite TrimSuffix_app. apply substring_split. lia.
Qed.

(** ** The map built by [get] *)

Lemma collect_into_snoc (files : gmap string file) (entries : list entry) (e : entry) :
  collect_into files (entries ++ [e])
  = <[id (file_of_entry e) := file_of_entry e]> (collect_into files entries).
Proof. unfold collect_into. now rewrite foldl_snoc. Qed.

(** Every file of the map comes from an entry and sits under its own id. *)
Lemma collect_lookup (entries : list entry) (k : string) (f : file) :
  collect entries !! k = Some f ->
  id f = k /\ exists e, e ∈ entries /\ f = file_of_entry e.
Proof.
  unfold collect.
  induction entries as [|e entries IH] using rev_ind; intros H.
  - unfold collect_into in H. simpl in H. now rewrite lookup_empty in H.
  - rewrite collect_into_snoc in H.
    destruct (decide (id (file_of_entry e) = k)) as [E|E].
    + rewrite <- E, lookup_insert_eq in H. inversion H; subst f.
      split; [exact E|]. exists e. split; [|reflexivity].
      apply elem_of_app. right. now apply list_elem_of_singleton.
    + rewrite lookup_insert_ne in H by exact E.
      destruct (IH H) as [Hid (e' & He' & Hf)].
      split; [exact Hid|]. exists e'. split; [|exact Hf].
      apply elem_of_app. now left.
Qed.

(** An entry is overwritten only by a later entry of the same id. *)
Lemma collect_last (before after : list entry) (e : entry) :
  Forall (fun e' => id (file_of_entry e') <> id (file_of_entry e)) after ->
  collect (before ++ e :: after) !! id (file_of_entry e) = Some (file_of_entry e).
Proof.
  unfold collect.
  induction after as [|e' after IH] using rev_ind; intros H.
  - rewrite collect_into_snoc. apply lookup_insert_eq.
  - apply Forall_app in H as [H1 H2].
    replace (before ++ e :: after ++ [e']) with ((before ++ e :: after) ++ [e'])
      by now rewrite <- app_assoc.
    rewrite collect_into_snoc, lookup_insert_ne; [now apply IH|].
    now inversion H2.
Qed.

(** The keys of a map, as [map_to_list] lists them. *)
Lemma elem_of_keys {A : Type} (m : gmap string A) (k : string) :
  k ∈ (map_to_list m).*1 <-> is_Some (m !! k).
Proof.
  rewrite list_elem_of_fmap. split.
  - intros ([k' v] & -> & H). apply elem_of_map_to_list in H. simpl. eauto.
  - intros [v H]. exists (k, v). split; [reflexivity|].
    now apply elem_of_map_to_list.
Qed.

Section Properties.

Variable Out : Type.
Variable callback : Type.
Variable yaml_Unmarshal json_Unmarshal : string -> Out -> Out * option error.
Variable path_Join : string -> string -> string.
Variable cfg : Config.

Local Abbreviation query_variables := (query_variables path_Join cfg).
Local Abbreviation get := (get path_Join cfg).
Local Abbreviation read := (read Out yaml_Unmarshal json_Unmarshal).
Local Abbreviation answer := (answer Out yaml_Unmarshal json_Unmarshal).
Local Abbreviation on_request :=
  (on_request Out callback yaml_Unmarshal json_Unmarshal path_Join cfg).
Local Abbreviation on_tick := (on_tick Out callback path_Join cfg).
Local Abbreviation reconcile := (reconcile callback path_Join cfg).
Local Abbreviation handle :=
  (handle Out callback yaml_Unmarshal json_Unmarshal path_Join cfg).
Local Abbreviation run :=
  (run Out callback yaml_Unmarshal json_Unmarshal path_Join cfg).

(** *** [get] *)

(** [get] fails exactly when the query fails, with the error of the query
    wrapped; otherwise it returns the map collected from the entries. *)
Lemma get_failure (q : querier) (botType : BotType) (err : error) :
  get q botType = inl err ->
  exists cause,
    q (query_variables botType) = inl cause
    /\ err = wrapError "failed to query Github API: %w" cause.
Proof.
  unfold githubconfig.get. intros H.
  destruct (q _) as [cause|entries] eqn:E; [|discriminate].
  inversion H. eauto.
Qed.

Lemma get_success (q : querier) (botType : BotType) (files : gmap string file) :
  get q botType = inr files -> exists entries, files = collect entries.
Proof.
  unfold githubconfig.get. intros H.
  destruct (q _) as [cause|entries]; [discriminate|].
  inversion H. eauto.
Qed.

(** A fetched file sits under its own id. *)
Lemma get_key (q : querier) (botType : BotType) (files : gmap string file)
      (k : string) (f : file) :
  get q botType = inr files -> files !! k = Some f -> id f = k.
Proof.
  intros H L. apply get_success in H as [es ->].
  now apply collect_lookup in L as [? _].
Qed.

(** C10: when the query succeeds, [get] returns the map collected from the
    listed entries; every file of the map is built from a listed entry, sits
    under its own id, and its id is its file name without the final
    extension; two listed names that are the same stem followed by their
    extensions have the same id, and of two entries with one id the map holds
    the one listed later. *)
Theorem get_keyed_by_id (q : querier) (botType : BotType)
        (entries : list entry) :
  q (query_variables botType) = inr entries ->
  get q botType = inr (collect entries)
  /\ (forall k f,
         collect entries !! k = Some f ->
         id f = k
         /\ (exists e, e ∈ entries /\ f = file_of_entry e)
         /\ extension f = Ext (fileName f)
         /\ id f = TrimSuffix (fileName f) (extension f)
         /\ id f +:+ extension f = fileName f)
  /\ (forall stem e1 e2,
         entry_Name e1 = stem +:+ Ext (entry_Name e1) ->
         entry_Name e2 = stem +:+ Ext (entry_Name e2) ->
         id (file_of_entry e1) = stem /\ id (file_of_entry e2) = stem)
  /\ (forall l1 e1 l2 e2 l3,
         entries = l1 ++ e1 :: l2 ++ e2 :: l3 ->
         id (file_of_entry e1) = id (file_of_entry e2) ->
         Forall (fun e => id (file_of_entry e) <> id (file_of_entry e2)) l3 ->
         collect entries !! id (file_of_entry e1) = Some (file_of_entry e2)).
Proof.
  intros H. split; [unfold githubconfig.get; now rewrite H|]. split; [|split].
  - intros k f L. apply collect_lookup in L as [Hk (e & He & ->)].
    split; [exact Hk|]. split; [now exists e|].
    unfold file_of_entry; simpl. split; [reflexivity|]. split; [reflexivity|].
    apply TrimSuffix_Ext.
  - intros stem e1 e2 H1 H2. unfold file_of_entry; simpl. split.
    + rewrite H1 at 1. apply TrimSuffix_app.
    + rewrite H2 at 1. apply TrimSuffix_app.
  - intros l1 e1 l2 e2 l3 -> Hid Hl3. rewrite Hid.
    replace (l1 ++ e1 :: l2 ++ e2 :: l3) with ((l1 ++ e1 :: l2) ++ e2 :: l3)
      by now rewrite <- app_assoc.
    now apply collect_last.
Qed.

(** *** [read] *)

(** C8: [read] picks the decoder by the extension of the file alone: the YAML
    decoder for [.yml] and [.yaml], the JSON decoder for [.json], each on the
    content and the target; for any other extension the target is returned
    as it was, with an error that names the extension. *)
Theorem read_by_extension (f : file) (out : Out) :
  (extension f = ".yml" \/ extension f = ".yaml" ->
   read f out = yaml_Unmarshal (content f) out)
  /\ (extension f = ".json" -> read f out = json_Unmarshal (content f) out)
  /\ (extension f <> ".yml" -> extension f <> ".yaml" ->
      extension f <> ".json" ->
      read f out
      = (out,
         Some (errorString ("unsupported file extension for " +:+ id f
                            +:+ ": " +:+ extension f)))).
Proof.
  unfold githubconfig.read. split; [|split].
  - intros [E|E]; rewrite E; reflexivity.
  - intros E; rewrite E; reflexivity.
  - intros H1 H2 H3.
    apply String.eqb_neq in H1, H2, H3. now rewrite H1, H2, H3.
Qed.

(** *** [NewConfig] and [New] *)

(** C9: [NewConfig] keeps the owner, the name and the base directory and
    sets the branch to [master], the interval to one minute and the timeout
    to five seconds, both in nanoseconds.  [New] starts from a watcher
    without client and runs the options in list order, each on the watcher
    the one before has left; it returns an error exactly when that watcher
    has no client at the end, and otherwise returns it.  So [New] without
    options, or with options that leave the client alone, is an error, and
    [New] with [WithClient] as the last option returns a watcher with that
    client, whatever the options before it. *)
Theorem NewConfig_New (owner name baseDir : string) (c : Config)
        (opts : list Option) :
  NewConfig owner name baseDir
  = {| Owner := owner; Name := name; BaseDir := baseDir; Branch := "master";
       Interval := 60000000000%Z; TimeOut := 5000000000%Z |}
  /\ ((exists e, New c opts = inl e)
      <-> client (apply_options opts {| client := None; config := c |}) = None)
  /\ (forall w, New c opts = inr w ->
                w = apply_options opts {| client := None; config := c |}
                /\ exists q, client w = Some q)
  /\ (forall w, apply_options [] w = w)
  /\ (forall opt rest w,
         apply_options (opt :: rest) w = apply_options rest (opt w))
  /\ New c []
     = inl (errorString
              "githubv4.Client must be derived from WithClient or WithToken option")
  /\ (Forall (fun opt : Option => forall w, client (opt w) = client w) opts ->
      New c opts
      = inl (errorString
               "githubv4.Client must be derived from WithClient or WithToken option"))
  /\ (forall q,
         New c (opts ++ [WithClient q])
         = inr {| client := Some q;
                  config := config (apply_options opts
                                      {| client := None; config := c |}) |}).
Proof.
  split; [reflexivity|].
  split; [|split; [|split; [reflexivity|split; [reflexivity|split;
    [reflexivity|split]]]]].
  - unfold New.
    destruct (client (apply_options opts _)) as [q|] eqn:E.
    + split; [intros [e He]; discriminate | discriminate].
    + split; [reflexivity | eauto].
  - unfold New.
    destruct (client (apply_options opts _)) as [q|] eqn:E.
    + intros w Hw. inversion Hw; subst w. split; [reflexivity | eauto].
    + intros w Hw. discriminate.
  - intros H.
    assert (forall w, client (apply_options opts w) = client w) as Hkeep.
    { unfold apply_options.
      induction H as [|opt rest Hopt _ IH]; intros w; [reflexivity|].
      simpl. now rewrite IH, Hopt. }
    unfold New. now rewrite Hkeep.
  - intros q. unfold New, apply_options. now rewrite foldl_snoc.
Qed.

(** *** Counting goroutines *)

Lemma dispatches_app (botType : BotType) (id : string)
      (a b : list (spawn callback)) :
  dispatches botType id (a ++ b)
  = dispatches botType id a + dispatches botType id b.
Proof. unfold dispatches. now rewrite List.filter_app, length_app. Qed.

Lemma dispatches_other_bot (botType : BotType) (id : string)
      (gos : list (spawn callback)) :
  Forall (fun g => spawn_botType g <> botType) gos ->
  dispatches botType id gos = 0.
Proof.
  unfold dispatches. induction 1 as [|g gos Hg _ IH]; [reflexivity|].
  simpl. apply String.eqb_neq in Hg. rewrite Hg. exact IH.
Qed.

Lemma dispatches_cons (botType : BotType) (id : string) (g : spawn callback)
      (gos : list (spawn callback)) :
  dispatches botType id (g :: gos)
  = (if String.eqb (spawn_botType g) botType && String.eqb (spawn_id g) id
     then 1 else 0)
    + dispatches botType id gos.
Proof. unfold dispatches. simpl. now destruct (_ && _). Qed.

(** *** The inner loop of a tick *)

Lemma notify_one_Some (botType : BotType) (files cached : gmap string file)
      (sub : string * callback) (g : spawn callback) :
  notify_one botType files cached sub = Some g ->
  g = mkSpawn botType sub.1 sub.2.
Proof.
  unfold notify_one. destruct (files !! sub.1); [|discriminate].
  destruct (changed _ _); [|discriminate]. now inversion 1.
Qed.

Lemma notify_list_absent (botType : BotType) (files cached : gmap string file)
      (id : string) (l : list (string * callback)) :
  id ∉ l.*1 ->
  dispatches botType id (omap (notify_one botType files cached) l) = 0.
Proof.
  induction l as [|kv l IH]; intros H; [reflexivity|].
  rewrite fmap_cons, not_elem_of_cons in H. destruct H as [Hne H].
  simpl. destruct (notify_one _ _ _ kv) as [g|] eqn:E; [|now apply IH].
  apply notify_one_Some in E. subst g. rewrite dispatches_cons. simpl.
  assert (String.eqb kv.1 id = false) as -> by now apply String.eqb_neq.
  rewrite andb_false_r. now apply IH.
Qed.

Lemma notify_list_present (botType : BotType) (files cached : gmap string file)
      (id : string) (cb : callback) (l : list (string * callback)) :
  NoDup l.*1 -> (id, cb) ∈ l ->
  dispatches botType id (omap (notify_one botType files cached) l)
  = match notify_one botType files cached (id, cb) with
    | Some _ => 1
    | None => 0
    end.
Proof.
  induction l as [|kv l IH]; intros ND H; [now apply elem_of_nil in H|].
  rewrite fmap_cons in ND. apply NoDup_cons in ND as [Hnew ND].
  apply elem_of_cons in H as [<-|H].
  - simpl. destruct (notify_one _ _ _ (id, cb)) as [g|] eqn:E.
    + apply notify_one_Some in E. subst g. rewrite dispatches_cons. simpl.
      rewrite !String.eqb_refl. simpl. now rewrite notify_list_absent.
    + now apply notify_list_absent.
  - assert (kv.1 <> id) as Hne.
    { intros <-. apply Hnew. apply list_elem_of_fmap. now exists (kv.1, cb). }
    simpl. destruct (notify_one _ _ _ kv) as [g|] eqn:E; [|now apply IH].
    apply notify_one_Some in E. subst g. rewrite dispatches_cons. simpl.
    assert (String.eqb kv.1 id = false) as -> by now apply String.eqb_neq.
    rewrite andb_false_r. now apply IH.
Qed.

(** A subscribed id is given at most one goroutine, and gets it exactly when
    it is in the fresh set and [changed] says so. *)
Lemma notify_dispatches (botType : BotType) (files cached : gmap string file)
      (sub : gmap string callback) (id : string) (cb : callback) :
  sub !! id = Some cb ->
  dispatches botType id (notify botType files cached sub)
  = match files !! id with
    | Some f => if changed cached f then 1 else 0
    | None => 0
    end.
Proof.
  intros H. unfold notify.
  rewrite (notify_list_present _ _ _ id cb).
  - unfold notify_one. simpl. destruct (files !! id); [|reflexivity].
    now destruct (changed _ _).
  - apply NoDup_fst_map_to_list.
  - now apply elem_of_map_to_list.
Qed.

Lemma notify_in (botType : BotType) (files cached : gmap string file)
      (sub : gmap string callback) (id : string) (cb : callback) (f : file) :
  sub !! id = Some cb -> files !! id = Some f -> changed cached f = true ->
  mkSpawn botType id cb ∈ notify botType files cached sub.
Proof.
  intros Hs Hf Hc. unfold notify. apply list_elem_of_omap.
  exists (id, cb). split; [now apply elem_of_map_to_list|].
  unfold notify_one. simpl. now rewrite Hf, Hc.
Qed.

Lemma notify_botType (botType : BotType) (files cached : gmap string file)
      (sub : gmap string callback) :
  Forall (fun g => spawn_botType g = botType)
         (notify botType files cached sub).
Proof.
  apply Forall_forall. intros g Hg. unfold notify in Hg.
  apply list_elem_of_omap in Hg as (kv & _ & E).
  apply notify_one_Some in E. now subst g.
Qed.

(** Against the fresh set itself nothing has changed. *)
Lemma notify_baseline (q : querier) (botType : BotType)
      (files : gmap string file) (sub : gmap string callback) :
  get q botType = inr files -> notify botType files files sub = [].
Proof.
  intros G. unfold notify.
  induction (map_to_list sub) as [|kv l IH]; [reflexivity|].
  assert (notify_one botType files files kv = None) as E.
  { unfold notify_one.
    destruct (files !! kv.1) as [f|] eqn:L; [|reflexivity].
    unfold changed. rewrite (get_key q botType files kv.1 f G L), L.
    now rewrite String.eqb_refl. }
  simpl. rewrite E. exact IH.
Qed.

(** *** The outer loop of a tick *)

(** The body of the loop for one bot type: on a miss the fresh set is put in
    the cache before the comparison, so the comparison is against the fresh
    set itself. *)
Lemma reconcile_at (q : querier) (c : gmap string (gmap string file))
      (gos : list (spawn callback)) (calls : list string)
      (botType : BotType) (sub : gmap string callback) :
  reconcile q (c, gos, calls) (botType, sub)
  = match get q botType with
    | inl _ => (c, gos, calls ++ [botType])
    | inr files =>
        (<[botType := files]> c,
         gos ++ notify botType files (default files (c !! botType)) sub,
         calls ++ [botType])
    end.
Proof.
  unfold githubconfig.reconcile. simpl.
  destruct (get q botType) as [err|files]; [reflexivity|].
  destruct (c !! botType) as [old|] eqn:L; simpl.
  - now rewrite L.
  - now rewrite lookup_insert_eq, insert_insert_eq.
Qed.

Lemma foldl_step {A B : Type} (f : A -> B -> A) (a : A) (x : B) (l : list B) :
  foldl f a (x :: l) = foldl f (f a x) l.
Proof. reflexivity. Qed.

(** The turns of the loop for other bot types leave the entry of [botType]
    alone and start nothing for it. *)
Lemma reconcile_others (q : querier) (botType : BotType)
      (l : list (string * gmap string callback)) :
  botType ∉ l.*1 ->
  forall acc : tick_acc callback,
    (foldl (reconcile q) acc l).1.1 !! botType = acc.1.1 !! botType
    /\ exists more,
        (foldl (reconcile q) acc l).1.2 = acc.1.2 ++ more
        /\ Forall (fun g => spawn_botType g <> botType) more.
Proof.
  induction l as [|[k sub] l IH]; intros H acc.
  - simpl. split; [reflexivity|]. exists []. now rewrite app_nil_r.
  - rewrite fmap_cons, not_elem_of_cons in H. destruct H as [Hne H].
    simpl in Hne. destruct acc as [[c gos] calls].
    rewrite foldl_step, reconcile_at.
    destruct (get q k) as [err|files].
    + apply (IH H (c, gos, calls ++ [k])).
    + destruct (IH H (<[k := files]> c,
                      gos ++ notify k files (default files (c !! k)) sub,
                      calls ++ [k])) as [Hc (more & Hg & Hm)].
      simpl in Hc, Hg. split.
      * rewrite Hc. simpl. apply lookup_insert_ne. congruence.
      * exists (notify k files (default files (c !! k)) sub ++ more).
        split; [now rewrite Hg, <- app_assoc|].
        apply Forall_app. split; [|exact Hm].
        eapply Forall_impl; [apply notify_botType|].
        simpl. intros g ->. congruence.
Qed.

Lemma on_tick_fold (q : querier) (s : state callback) :
  on_tick q s
  = let r := foldl (reconcile q) (cache s, [], [])
                   (map_to_list (subscription s)) in
    {| next := {| cache := r.1.1; subscription := subscription s |};
       reply := None; started := r.1.2; fetched := r.2; stopped := false |}.
Proof.
  unfold githubconfig.on_tick. now destruct (foldl _ _ _) as [[c gos] calls].
Qed.

(** What a tick does for one subscribed bot type. *)
Lemma on_tick_at (q : querier) (s : state callback) (botType : BotType)
      (sub : gmap string callback) :
  subscription s !! botType = Some sub ->
  exists before after,
    started (on_tick q s)
    = before
        ++ match get q botType with
           | inl _ => []
           | inr files =>
               notify botType files (default files (cache s !! botType)) sub
           end
        ++ after
    /\ Forall (fun g => spawn_botType g <> botType) before
    /\ Forall (fun g => spawn_botType g <> botType) after
    /\ cache (next (on_tick q s)) !! botType
       = match get q botType with
         | inl _ => cache s !! botType
         | inr files => Some files
         end.
Proof.
  intros H. rewrite on_tick_fold. simpl.
  apply elem_of_map_to_list in H.
  pose proof (NoDup_fst_map_to_list (subscription s)) as ND.
  apply list_elem_of_split in H as (l1 & l2 & E). rewrite E in ND |- *.
  rewrite fmap_app, fmap_cons in ND. simpl in ND.
  apply NoDup_app in ND as (_ & Hl1 & ND).
  apply NoDup_cons in ND as [Hl2 _].
  assert (botType ∉ l1.*1) as Hl1'.
  { intros Hin. apply (Hl1 _ Hin). now left. }
  rewrite foldl_app, foldl_step.
  destruct (reconcile_others q botType l1 Hl1' (cache s, [], []))
    as [Hc1 (before & Hg1 & Hb)].
  destruct (foldl (reconcile q) (cache s, [], []) l1) as [[c1 gos1] calls1].
  simpl in Hc1, Hg1. subst gos1. rewrite reconcile_at, Hc1.
  destruct (get q botType) as [err|files].
  - destruct (reconcile_others q botType l2 Hl2 (c1, before, calls1 ++ [botType]))
      as [Hc2 (after & Hg2 & Ha)].
    simpl in Hc2, Hg2. exists before, after.
    rewrite Hg2, Hc2, Hc1. auto.
  - destruct (reconcile_others q botType l2 Hl2
                (<[botType := files]> c1,
                 before ++ notify botType files
                                  (default files (cache s !! botType)) sub,
                 calls1 ++ [botType]))
      as [Hc2 (after & Hg2 & Ha)].
    simpl in Hc2, Hg2. exists before, after.
    rewrite Hg2, Hc2, lookup_insert_eq, <- app_assoc. auto.
Qed.

Lemma dispatches_at (botType : BotType) (id : string)
      (before mid after : list (spawn callback)) :
  Forall (fun g => spawn_botType g <> botType) before ->
  Forall (fun g => spawn_botType g <> botType) after ->
  dispatches botType id (before ++ mid ++ after) = dispatches botType id mid.
Proof.
  intros Hb Ha. rewrite !dispatches_app.
  rewrite (dispatches_other_bot _ _ before Hb).
  rewrite (dispatches_other_bot _ _ after Ha). lia.
Qed.

(** C4: on a tick, for a subscribed bot type with a cache entry and a
    successful fetch, a subscribed id that is in the fresh set with an object
    id other than the cached one gets exactly one goroutine, which runs its
    callback; one with the cached object id gets none; afterwards the cache
    entry of the bot type is the whole fresh set. *)
Theorem tick_notifies_changes (q : querier) (s : state callback)
        (botType : BotType) (sub : gmap string callback)
        (old files : gmap string file) :
  subscription s !! botType = Some sub ->
  cache s !! botType = Some old ->
  get q botType = inr files ->
  (forall id cb f o,
      sub !! id = Some cb -> files !! id = Some f -> old !! id = Some o ->
      (objectID o <> objectID f ->
       dispatches botType id (started (on_tick q s)) = 1
       /\ mkSpawn botType id cb ∈ started (on_tick q s))
      /\ (objectID o = objectID f ->
          dispatches botType id (started (on_tick q s)) = 0))
  /\ cache (next (on_tick q s)) !! botType = Some files.
Proof.
  intros Hs Hc Hg.
  destruct (on_tick_at q s botType sub Hs) as (before & after & E & Hb & Ha & C).
  rewrite Hg, Hc in E. simpl in E. rewrite Hg in C. split; [|exact C].
  intros id cb f o Hsub Hf Ho.
  assert (changed old f = negb (String.eqb (objectID o) (objectID f))) as Hch.
  { unfold changed. now rewrite (get_key q botType files id f Hg Hf), Ho. }
  rewrite E, (dispatches_at _ _ _ _ _ Hb Ha), (notify_dispatches _ _ _ _ _ _ Hsub).
  rewrite Hf, Hch. split.
  - intros Hne. apply String.eqb_neq in Hne. rewrite Hne. simpl.
    split; [reflexivity|].
    apply elem_of_app. right. apply elem_of_app. left.
    apply (notify_in _ _ _ _ _ _ f Hsub Hf). now rewrite Hch, Hne.
  - intros Heq. apply String.eqb_eq in Heq. now rewrite Heq.
Qed.

(** C5: on a tick, when the fetch for a subscribed bot type fails, the cache
    entry of that bot type and the whole subscription table are as before,
    no goroutine is started for that bot type, and nothing is sent on any
    reply channel. *)
Theorem tick_fetch_failure (q : querier) (s : state callback)
        (botType : BotType) (sub : gmap string callback) (err : error) :
  subscription s !! botType = Some sub ->
  get q botType = inl err ->
  cache (next (on_tick q s)) !! botType = cache s !! botType
  /\ subscription (next (on_tick q s)) = subscription s
  /\ Forall (fun g => spawn_botType g <> botType) (started (on_tick q s))
  /\ (forall id, dispatches botType id (started (on_tick q s)) = 0)
  /\ reply (on_tick q s) = None.
Proof.
  intros Hs Hg.
  destruct (on_tick_at q s botType sub Hs) as (before & after & E & Hb & Ha & C).
  rewrite Hg in E, C. simpl in E.
  assert (Forall (fun g => spawn_botType g <> botType) (started (on_tick q s)))
    as Hall by (rewrite E; now apply Forall_app).
  split; [exact C|]. split; [now rewrite on_tick_fold|].
  split; [exact Hall|]. split; [|now rewrite on_tick_fold].
  intros id. now apply dispatches_other_bot.
Qed.

(** C3, as the code has it: on a tick, for a subscribed bot type without a
    cache entry, a successful fetch makes the fresh set the cache entry and
    starts no goroutine for that bot type; where the bot type has a cache
    entry that lacks a subscribed id of the fresh set, that id gets exactly one
    goroutine. *)
Theorem tick_first_fetch_is_baseline (q : querier) (s : state callback)
        (botType : BotType) (sub : gmap string callback)
        (files : gmap string file) :
  subscription s !! botType = Some sub ->
  get q botType = inr files ->
  (cache s !! botType = None ->
   Forall (fun g => spawn_botType g <> botType) (started (on_tick q s))
   /\ (forall id, dispatches botType id (started (on_tick q s)) = 0)
   /\ cache (next (on_tick q s)) !! botType = Some files)
  /\ (forall old id cb f,
         cache s !! botType = Some old ->
         sub !! id = Some cb -> files !! id = Some f -> old !! id = None ->
         dispatches botType id (started (on_tick q s)) = 1).
Proof.
  intros Hs Hg.
  destruct (on_tick_at q s botType sub Hs) as (before & after & E & Hb & Ha & C).
  rewrite Hg in E, C. split.
  - intros Hc. rewrite Hc in E. simpl in E.
    rewrite (notify_baseline q botType files sub Hg) in E. simpl in E.
    assert (Forall (fun g => spawn_botType g <> botType) (started (on_tick q s)))
      as Hall by (rewrite E; now apply Forall_app).
    split; [exact Hall|]. split; [|exact C].
    intros id. now apply dispatches_other_bot.
  - intros old id cb f Hc Hsub Hf Ho. rewrite Hc in E. simpl in E.
    rewrite E, (dispatches_at _ _ _ _ _ Hb Ha), (notify_dispatches _ _ _ _ _ _ Hsub).
    rewrite Hf. unfold changed.
    now rewrite (get_key q botType files id f Hg Hf), Ho.
Qed.

(** *** Requests *)

Lemma on_request_hit (q : querier) (s : state callback) (botType : BotType)
      (id : string) (out : Out) (files : gmap string file) :
  cache s !! botType = Some files ->
  on_request q s botType id out
  = {| next := s; reply := Some (answer files botType id out);
       started := []; fetched := []; stopped := false |}.
Proof. intros H. unfold githubconfig.on_request. now rewrite H. Qed.

(** On a miss with a successful fetch the fresh set is stored, but the
    lookup is made in the nil map of line 109. *)
Lemma on_request_miss_success (q : querier) (s : state callback)
      (botType : BotType) (id : string) (out : Out)
      (files : gmap string file) :
  cache s !! botType = None ->
  get q botType = inr files ->
  on_request q s botType id out
  = {| next := {| cache := <[botType := files]> (cache s);
                  subscription := subscription s |};
       reply := Some (out, Some (ConfigNotFoundError botType id));
       started := []; fetched := [botType]; stopped := false |}.
Proof.
  intros H G. unfold githubconfig.on_request. rewrite H, G. simpl.
  unfold githubconfig.answer. now rewrite lookup_empty, insert_insert_eq.
Qed.

Lemma on_request_miss_failure (q : querier) (s : state callback)
      (botType : BotType) (id : string) (out : Out) (err : error) :
  cache s !! botType = None ->
  get q botType = inl err ->
  on_request q s botType id out
  = {| next := {| cache := <[botType := ∅]> (cache s);
                  subscription := subscription s |};
       reply := Some (out, Some err);
       started := []; fetched := [botType]; stopped := false |}.
Proof. intros H G. unfold githubconfig.on_request. now rewrite H, G. Qed.

(** C2, as the code has it: a request for a bot type without a cache entry
    whose fetch fails is answered with the error of the query, wrapped, and
    leaves the target as it was; afterwards the cache holds the empty map
    for that bot type, so that a later request for it, whatever the client
    would answer, calls [get] for nothing and is answered with
    [ConfigNotFoundError] for the bot type and the id. *)
Theorem read_miss_fetch_failure (q : querier) (s : state callback)
        (botType : BotType) (id : string) (out : Out) (err : error) :
  cache s !! botType = None ->
  get q botType = inl err ->
  reply (on_request q s botType id out) = Some (out, Some err)
  /\ (exists cause,
         q (query_variables botType) = inl cause
         /\ err = wrapError "failed to query Github API: %w" cause)
  /\ cache (next (on_request q s botType id out)) !! botType = Some ∅
  /\ subscription (next (on_request q s botType id out)) = subscription s
  /\ (forall q' id' out',
         let o' := on_request q' (next (on_request q s botType id out))
                              botType id' out' in
         fetched o' = []
         /\ reply o' = Some (out', Some (ConfigNotFoundError botType id'))
         /\ next o' = next (on_request q s botType id out)).
Proof.
  intros H G. rewrite (on_request_miss_failure q s botType id out err H G).
  simpl. split; [reflexivity|]. split; [now apply (get_failure q botType)|].
  split; [apply lookup_insert_eq|]. split; [reflexivity|].
  intros q' id' out'.
  rewrite (on_request_hit q' _ botType id' out' ∅) by apply lookup_insert_eq.
  simpl. unfold githubconfig.answer. now rewrite lookup_empty.
Qed.

(** *** Unsubscription *)







End Properties.

(** * The example watcher *)

(** C1, at the first request of the example: the cache has no entry for
    [slackBot], the fetch succeeds and returns [hello.yml], which decodes to
    [hi]; the fresh set is stored in the cache, but the request is answered
    with [ConfigNotFoundError] and the target is left as it was. *)
Theorem read_miss_replies_not_found :
  let q := Hello.remote [Hello.hello_abc] in
  let hello := mkFile "hello" "hello.yml" ".yml" "abc" "message: hi" in
  let o := Hello.on_request q initial "slackBot" "hello" "" in
  cache (initial : state Hello.callback) !! "slackBot" = None
  /\ Hello.get q "slackBot" = inr (collect [Hello.hello_abc])
  /\ collect [Hello.hello_abc] !! "hello" = Some hello
  /\ Hello.read hello "" = ("hi", None)
  /\ cache (next o) !! "slackBot" = Some (collect [Hello.hello_abc])
  /\ fetched o = ["slackBot"]
  /\ reply o = Some ("", Some (ConfigNotFoundError "slackBot" "hello")).
Proof. vm_compute. repeat split; reflexivity. Qed.

(** The same request once more finds the entry and is answered from it. *)
Example read_hit_decodes :
  let q := Hello.remote [Hello.hello_abc] in
  let o := Hello.on_request q initial "slackBot" "hello" "" in
  let o' := Hello.on_request Hello.offline (next o) "slackBot" "hello" "" in
  fetched o' = [] /\ reply o' = Some ("hi", None).
Proof. vm_compute. split; reflexivity. Qed.

(** C2 fails as stated: after a request whose fetch failed, the cache has an
    entry for [slackBot], and the next request for [slackBot] does not call
    [get], though the repository now answers. *)
Lemma read_miss_fetch_failure_counterexample :
  let o := Hello.on_request Hello.offline initial "slackBot" "hello" "" in
  let o' := Hello.on_request (Hello.remote [Hello.hello_abc]) (next o)
                               "slackBot" "hello" "" in
  cache (initial : state Hello.callback) !! "slackBot" = None
  /\ (exists err, Hello.get Hello.offline "slackBot" = inl err)
  /\ cache (next o) !! "slackBot" <> None
  /\ fetched o' = []
  /\ reply o' = Some ("", Some (ConfigNotFoundError "slackBot" "hello")).
Proof.
  vm_compute. split; [reflexivity|]. split; [eauto|].
  split; [discriminate|]. split; reflexivity.
Qed.

(** The first request of the example while the client is offline. *)
Lemma read_miss_fetch_failure_witness :
  let o := Hello.on_request Hello.offline initial "slackBot" "hello" "" in
  reply o
  = Some ("", Some (wrapError "failed to query Github API: %w"
                              (errorString "connection refused")))
  /\ cache (next o) !! "slackBot" = Some ∅.
Proof.
  destruct (read_miss_fetch_failure
              Hello.Out Hello.callback Hello.yaml_Unmarshal
              Hello.json_Unmarshal Hello.path_Join Hello.cfg
              Hello.offline initial "slackBot" "hello" ""
              (wrapError "failed to query Github API: %w"
                         (errorString "connection refused")))
    as (A & _ & B & _); [reflexivity | reflexivity |].
  split; [exact A | exact B].
Defined.

(** C3 fails as stated: [hello] is subscribed under [slackBot], [slackBot]
    has no cache entry, the fetch succeeds and the fresh set holds [hello],
    and the tick starts no goroutine. *)
Lemma tick_first_fetch_counterexample :
  let q := Hello.remote [Hello.hello_abc] in
  let o := Hello.on_tick q Hello.watching in
  subscription Hello.watching !! "slackBot" = Some {[ "hello" := 7 ]}
  /\ cache Hello.watching !! "slackBot" = None
  /\ Hello.get q "slackBot" = inr (collect [Hello.hello_abc])
  /\ is_Some (collect [Hello.hello_abc] !! "hello")
  /\ started o = []
  /\ ~ (mkSpawn "slackBot" "hello" 7 ∈ started o).
Proof.
  vm_compute. split; [reflexivity|]. split; [reflexivity|].
  split; [reflexivity|]. split; [eauto|]. split; [reflexivity|].
  intros H. inversion H.
Qed.

(** The first tick of the example, with [hello] subscribed and nothing
    cached. *)
Lemma tick_first_fetch_is_baseline_witness :
  let o := Hello.on_tick (Hello.remote [Hello.hello_abc]) Hello.watching in
  cache Hello.watching !! "slackBot" = None
  /\ dispatches "slackBot" "hello" (started o) = 0
  /\ cache (next o) !! "slackBot" = Some (collect [Hello.hello_abc]).
Proof.
  destruct (tick_first_fetch_is_baseline
              Hello.Out Hello.callback Hello.path_Join Hello.cfg
              (Hello.remote [Hello.hello_abc]) Hello.watching "slackBot"
              {[ "hello" := 7 ]} (collect [Hello.hello_abc]))
    as [A _]; [vm_compute; reflexivity | reflexivity |].
  assert (cache Hello.watching !! "slackBot" = None) as H
      by (vm_compute; reflexivity).
  destruct (A H) as (_ & B & C).
  split; [exact H|]. split; [apply B | exact C].
Defined.

(** A tick that finds [hello.yml] at object id [def] while [abc] is
    cached. *)
Lemma tick_notifies_changes_witness :
  let o := Hello.on_tick (Hello.remote [Hello.hello_def])
                           Hello.watching_abc in
  dispatches "slackBot" "hello" (started o) = 1
  /\ mkSpawn "slackBot" "hello" 7 ∈ started o
  /\ cache (next o) !! "slackBot" = Some (collect [Hello.hello_def]).
Proof.
  destruct (tick_notifies_changes
              Hello.Out Hello.callback Hello.path_Join Hello.cfg
              (Hello.remote [Hello.hello_def]) Hello.watching_abc
              "slackBot" {[ "hello" := 7 ]}
              (collect [Hello.hello_abc]) (collect [Hello.hello_def]))
    as [A B]; [vm_compute; reflexivity | vm_compute; reflexivity | reflexivity |].
  destruct (A "hello" 7 (file_of_entry Hello.hello_def)
              (file_of_entry Hello.hello_abc))
    as [A1 _]; [vm_compute; reflexivity .. |].
  destruct A1 as [A1 A2]; [vm_compute; discriminate|].
  split; [exact A1|]. split; [exact A2 | exact B].
Defined.

(** A tick while the client is offline. *)
Lemma tick_fetch_failure_witness :
  let o := Hello.on_tick Hello.offline Hello.watching_abc in
  cache (next o) !! "slackBot" = cache Hello.watching_abc !! "slackBot"
  /\ subscription (next o) = subscription Hello.watching_abc
  /\ Forall (fun g => spawn_botType g <> "slackBot") (started o)
  /\ (forall id, dispatches "slackBot" id (started o) = 0)
  /\ reply o = None.
Proof.
  apply (tick_fetch_failure
           Hello.Out Hello.callback Hello.path_Join Hello.cfg
           Hello.offline Hello.watching_abc "slackBot" {[ "hello" := 7 ]}
           (wrapError "failed to query Github API: %w"
                      (errorString "connection refused")));
    [vm_compute; reflexivity | reflexivity].
Defined.



(** [read] on [hello.yml], [hello.json] and [hello.toml]. *)
Lemma read_by_extension_witness :
  Hello.read (file_of_entry Hello.hello_abc) ""
  = Hello.yaml_Unmarshal "message: hi" ""
  /\ Hello.read (file_of_entry Hello.hello_json) ""
     = Hello.json_Unmarshal "{}" ""
  /\ Hello.read (file_of_entry (mkEntry "hello.toml" "456" "message = 1")) "x"
     = ("x", Some (errorString "unsupported file extension for hello: .toml")).
Proof.
  split; [|split].
  - apply (proj1 (read_by_extension Hello.Out Hello.yaml_Unmarshal
                    Hello.json_Unmarshal (file_of_entry Hello.hello_abc) "")).
    left. reflexivity.
  - apply (proj1 (proj2 (read_by_extension Hello.Out Hello.yaml_Unmarshal
                    Hello.json_Unmarshal (file_of_entry Hello.hello_json) ""))).
    reflexivity.
  - apply (proj2 (proj2 (read_by_extension Hello.Out Hello.yaml_Unmarshal
                    Hello.json_Unmarshal
                    (file_of_entry (mkEntry "hello.toml" "456" "message = 1"))
                    "x"))); vm_compute; discriminate.
Defined.

(** [New] without options, with an option that takes the client away
    again, with the option of the test that does nothing, and with
    [WithClient]. *)
Lemma NewConfig_New_witness :
  (exists e, New Hello.cfg [] = inl e)
  /\ (exists e,
         New Hello.cfg
             [WithClient Hello.offline; fun w => mkWatcher None (config w)]
         = inl e)
  /\ New Hello.cfg [fun w => w]
     = inl (errorString
              "githubv4.Client must be derived from WithClient or WithToken option")
  /\ New Hello.cfg [WithClient Hello.offline]
     = inr {| client := Some Hello.offline; config := Hello.cfg |}
  /\ New Hello.cfg [fun w => w; WithClient Hello.offline]
     = inr {| client := Some Hello.offline; config := Hello.cfg |}.
Proof.
  split; [|split; [|split; [|split]]].
  - apply (proj2 (proj1 (proj2 (NewConfig_New "owner" "name" "some/dir"
                                   Hello.cfg [])))).
    reflexivity.
  - apply (proj2 (proj1 (proj2 (NewConfig_New "owner" "name" "some/dir"
              Hello.cfg
              [WithClient Hello.offline; fun w => mkWatcher None (config w)])))).
    reflexivity.
  - destruct (NewConfig_New "owner" "name" "some/dir" Hello.cfg [fun w => w])
      as (_ & _ & _ & _ & _ & _ & A & _).
    apply A. constructor; [reflexivity | constructor].
  - destruct (NewConfig_New "owner" "name" "some/dir" Hello.cfg [])
      as (_ & _ & _ & _ & _ & _ & _ & A).
    apply (A Hello.offline).
  - destruct (NewConfig_New "owner" "name" "some/dir" Hello.cfg [fun w => w])
      as (_ & _ & _ & _ & _ & _ & _ & A).
    apply (A Hello.offline).
Defined.

(** A directory that lists [hello.yml] and then [hello.json]. *)
Lemma get_keyed_by_id_witness :
  let entries := [Hello.hello_abc; Hello.hello_json] in
  Hello.get (Hello.remote entries) "slackBot" = inr (collect entries)
  /\ collect entries !! "hello" = Some (file_of_entry Hello.hello_json).
Proof.
  destruct (get_keyed_by_id Hello.path_Join Hello.cfg
              (Hello.remote [Hello.hello_abc; Hello.hello_json])
              "slackBot" [Hello.hello_abc; Hello.hello_json])
    as (A & _ & _ & B); [reflexivity|].
  split; [exact A|].
  apply (B [] Hello.hello_abc [] Hello.hello_json []);
    [reflexivity | reflexivity | constructor].
Defined.

(** * More of the loop *)

Section Actor.

Variable Out : Type.
Variable callback : Type.
Variable yaml_Unmarshal json_Unmarshal : string -> Out -> Out * option error.
Variable path_Join : string -> string -> string.
Variable cfg : Config.

Local Abbreviation get := (get path_Join cfg).
Local Abbreviation read := (read Out yaml_Unmarshal json_Unmarshal).
Local Abbreviation answer := (answer Out yaml_Unmarshal json_Unmarshal).
Local Abbreviation on_subscription := (on_subscription Out callback).
Local Abbreviation on_unsubscription := (on_unsubscription Out callback).
Local Abbreviation on_done := (on_done Out callback).
Local Abbreviation on_request :=
  (on_request Out callback yaml_Unmarshal json_Unmarshal path_Join cfg).
Local Abbreviation on_tick := (on_tick Out callback path_Join cfg).
Local Abbreviation reconcile := (reconcile callback path_Join cfg).
Local Abbreviation handle :=
  (handle Out callback yaml_Unmarshal json_Unmarshal path_Join cfg).
Local Abbreviation run :=
  (run Out callback yaml_Unmarshal json_Unmarshal path_Join cfg).

(** ** Subscriptions *)

(** Lines 98 to 102 in one step: the inner map of the bot type, or the empty
    map, with the callback put under the id. *)
Lemma on_subscription_next (s : state callback) (botType : BotType)
      (id : string) (cb : callback) :
  next (on_subscription s botType id cb)
  = {| cache := cache s;
       subscription :=
         <[botType := <[id := cb]> (default ∅ (subscription s !! botType))]>
           (subscription s) |}.
Proof.
  unfold githubconfig.on_subscription. simpl. f_equal.
  destruct (subscription s !! botType) as [sub|] eqn:L; simpl.
  - now rewrite L.
  - now rewrite lookup_insert_eq, insert_insert_eq.
Qed.

(** X1: a subscription puts the callback under its bot type and id and
    leaves every other registration as it was; it does not touch the cache,
    calls [get] for nothing, starts no goroutine and sends no reply. *)
Theorem subscribe_registers (s : state callback) (botType : BotType)
        (id : string) (cb : callback) :
  (forall botType' id',
      callback_of (next (on_subscription s botType id cb)) botType' id'
      = if decide (botType' = botType /\ id' = id)
        then Some cb
        else callback_of s botType' id')
  /\ cache (next (on_subscription s botType id cb)) = cache s
  /\ fetched (on_subscription s botType id cb) = []
  /\ started (on_subscription s botType id cb) = []
  /\ reply (on_subscription s botType id cb) = None.
Proof.
  split; [|now rewrite on_subscription_next].
  intros botType' id'. rewrite on_subscription_next. unfold callback_of. simpl.
  destruct (decide (botType' = botType)) as [->|Hb].
  - rewrite lookup_insert_eq.
    destruct (decide (id' = id)) as [->|Hi].
    + rewrite lookup_insert_eq. now rewrite decide_True.
    + rewrite lookup_insert_ne by congruence.
      rewrite decide_False by (intros [_ ?]; congruence).
      destruct (subscription s !! botType); [reflexivity | apply lookup_empty].
  - rewrite lookup_insert_ne by congruence.
    now rewrite decide_False by (intros [? _]; congruence).
Qed.

(** X2: of two subscriptions for one bot type and id the later replaces the
    earlier, and subscriptions for different ids or bot types can be handled
    in either order. *)
Theorem subscribe_overwrites_commutes (s : state callback)
        (botType botType' : BotType) (id id' : string) (cb cb' : callback) :
  next (on_subscription (next (on_subscription s botType id cb))
                        botType id cb')
  = next (on_subscription s botType id cb')
  /\ (botType <> botType' \/ id <> id' ->
      next (on_subscription (next (on_subscription s botType id cb))
                            botType' id' cb')
      = next (on_subscription (next (on_subscription s botType' id' cb'))
                              botType id cb)).
Proof.
  rewrite !on_subscription_next. simpl. split.
  - rewrite lookup_insert_eq. simpl. now rewrite !insert_insert_eq.
  - intros H. f_equal.
    destruct (decide (botType = botType')) as [<-|Hb].
    + destruct H as [H|H]; [congruence|].
      rewrite !lookup_insert_eq, !insert_insert_eq. simpl.
      now rewrite insert_insert_ne by congruence.
    + rewrite !lookup_insert_ne by congruence.
      now rewrite insert_insert_ne by congruence.
Qed.

(** ** Unsubscriptions *)

(** X3: an unsubscription leaves the cache entry and the subscriptions of
    every other bot type as they were, does nothing at all for a bot type
    that has neither, and a second one in a row changes nothing more. *)
Theorem unsubscribe_frame (s : state callback) (botType : BotType) :
  (forall botType',
      botType' <> botType ->
      cache (next (on_unsubscription s botType)) !! botType'
      = cache s !! botType'
      /\ subscription (next (on_unsubscription s botType)) !! botType'
         = subscription s !! botType')
  /\ (cache s !! botType = None -> subscription s !! botType = None ->
      next (on_unsubscription s botType) = s)
  /\ next (on_unsubscription (next (on_unsubscription s botType)) botType)
     = next (on_unsubscription s botType)
  /\ fetched (on_unsubscription s botType) = []
  /\ started (on_unsubscription s botType) = [].
Proof.
  simpl. split; [|split; [|split; [|split; reflexivity]]].
  - intros botType' H. now rewrite !lookup_delete_ne by congruence.
  - intros Hc Hs. rewrite (delete_id _ _ Hc), (delete_id _ _ Hs).
    now destruct s.
  - now rewrite !delete_delete_eq.
Qed.

(** ** Requests *)

(** X4: a request for a bot type that has a cache entry is answered from
    that entry: the maps stay as they are and [get] is not called; an id
    that the entry lacks is answered with [ConfigNotFoundError] and an
    untouched target, an id that it has with what [read] returns for its
    file. *)
Theorem request_hit (q : querier) (s : state callback) (botType : BotType)
        (id : string) (out : Out) (files : gmap string file) :
  cache s !! botType = Some files ->
  next (on_request q s botType id out) = s
  /\ fetched (on_request q s botType id out) = []
  /\ started (on_request q s botType id out) = []
  /\ (files !! id = None ->
      reply (on_request q s botType id out)
      = Some (out, Some (ConfigNotFoundError botType id)))
  /\ (forall f, files !! id = Some f ->
                reply (on_request q s botType id out) = Some (read f out)).
Proof.
  intros H. rewrite (on_request_hit Out callback yaml_Unmarshal json_Unmarshal
                       path_Join cfg q s botType id out files H).
  simpl. unfold githubconfig.answer.
  split; [reflexivity|]. split; [reflexivity|]. split; [reflexivity|].
  split.
  - now intros ->.
  - now intros f ->.
Qed.

(** X5: whatever the cache holds and whatever the client answers, a request
    sends exactly one reply, starts no goroutine, calls [get] at most once
    and only for its own bot type, and changes nothing but the cache entry of
    that bot type, which exists afterwards; so a request that follows for
    the same bot type calls [get] for nothing and leaves the maps alone. *)
Theorem request_frame (q : querier) (s : state callback) (botType : BotType)
        (id : string) (out : Out) :
  is_Some (reply (on_request q s botType id out))
  /\ started (on_request q s botType id out) = []
  /\ fetched (on_request q s botType id out)
     = match cache s !! botType with Some _ => [] | None => [botType] end
  /\ subscription (next (on_request q s botType id out)) = subscription s
  /\ (forall botType',
         botType' <> botType ->
         cache (next (on_request q s botType id out)) !! botType'
         = cache s !! botType')
  /\ is_Some (cache (next (on_request q s botType id out)) !! botType)
  /\ (forall q' id' out',
         fetched (on_request q' (next (on_request q s botType id out))
                             botType id' out') = []
         /\ next (on_request q' (next (on_request q s botType id out))
                             botType id' out')
            = next (on_request q s botType id out)).
Proof.
  assert (is_Some (cache (next (on_request q s botType id out)) !! botType))
    as Hentry.
  { unfold githubconfig.on_request.
    destruct (cache s !! botType) as [files|] eqn:L; simpl; [now rewrite L|].
    destruct (get q botType); simpl; rewrite lookup_insert_eq; eauto. }
  split; [|split; [|split; [|split; [|split; [|split]]]]].
  - unfold githubconfig.on_request.
    destruct (cache s !! botType); [simpl; eauto|].
    destruct (get q botType); simpl; eauto.
  - unfold githubconfig.on_request.
    destruct (cache s !! botType); [reflexivity|].
    now destruct (get q botType).
  - unfold githubconfig.on_request.
    destruct (cache s !! botType); [reflexivity|].
    now destruct (get q botType).
  - unfold githubconfig.on_request.
    destruct (cache s !! botType); [reflexivity|].
    now destruct (get q botType).
  - intros botType' Hne. unfold githubconfig.on_request.
    destruct (cache s !! botType); [reflexivity|].
    destruct (get q botType); simpl;
      now rewrite ?lookup_insert_ne by congruence.
  - exact Hentry.
  - intros q' id' out'. destruct Hentry as [files Hfiles].
    rewrite (on_request_hit Out callback yaml_Unmarshal json_Unmarshal
               path_Join cfg q' _ botType id' out' files Hfiles).
    split; reflexivity.
Qed.

(** A message that is neither a tick, nor the cancellation, nor an
    unsubscription of [botType] leaves the cache entry of [botType] as it
    is, and the loop goes on after it. *)
Lemma retains_keeps_entry (botType : BotType) (q : querier)
      (ev : event Out callback) (s : state callback)
      (files : gmap string file) :
  retains botType (q, ev) ->
  cache s !! botType = Some files ->
  cache (next (handle q ev s)) !! botType = Some files
  /\ stopped (handle q ev s) = false.
Proof.
  unfold retains. simpl. intros R H.
  destruct ev as [|bt id cb|bt|bt id out|]; try contradiction.
  - simpl. auto.
  - simpl. split; [|reflexivity]. now rewrite lookup_delete_ne.
  - change (handle q (ReadRequest bt id out) s) with (on_request q s bt id out).
    unfold githubconfig.on_request.
    destruct (cache s !! bt) as [fs|] eqn:L; [auto|].
    assert (bt <> botType) as Hne by congruence.
    destruct (get q bt); simpl; split; try reflexivity;
      rewrite ?lookup_insert_ne by exact Hne; exact H.
Qed.

Lemma run_keeps_entry (botType : BotType)
      (msgs : list (querier * event Out callback)) (s : state callback)
      (files : gmap string file) :
  Forall (retains botType) msgs ->
  cache s !! botType = Some files ->
  cache (run msgs s).1 !! botType = Some files.
Proof.
  revert s. induction msgs as [|[q ev] msgs IH]; intros s HF H; [exact H|].
  apply Forall_cons in HF as [R HF].
  destruct (retains_keeps_entry botType q ev s files R H) as [Hc Hs].
  simpl. rewrite Hs.
  specialize (IH (next (handle q ev s)) HF Hc).
  now destruct (run msgs (next (handle q ev s))).
Qed.

(** X6: when a request finds no cache entry and the fetch succeeds, the
    request itself is answered with [ConfigNotFoundError] whatever the fresh
    set holds, and the fresh set becomes the cache entry; it stays the cache
    entry through any subscriptions, requests and unsubscriptions of other
    bot types, so that until a tick, an unsubscription of the bot type or
    the cancellation is handled, every request for the bot type is answered
    from the fresh set without a call of [get], with what [read] returns for
    the file of its id. *)
Theorem request_miss_then_hit (q : querier) (s : state callback)
        (botType : BotType) (id : string) (out : Out)
        (files : gmap string file) :
  cache s !! botType = None ->
  get q botType = inr files ->
  reply (on_request q s botType id out)
  = Some (out, Some (ConfigNotFoundError botType id))
  /\ cache (next (on_request q s botType id out)) !! botType = Some files
  /\ (forall q' id' out',
         fetched (on_request q' (next (on_request q s botType id out))
                             botType id' out') = []
         /\ (forall f, files !! id' = Some f ->
                       reply (on_request q' (next (on_request q s botType id out))
                                         botType id' out')
                       = Some (read f out'))
         /\ (files !! id' = None ->
             reply (on_request q' (next (on_request q s botType id out))
                               botType id' out')
             = Some (out', Some (ConfigNotFoundError botType id'))))
  /\ (forall msgs q' id' out',
         Forall (retains botType) msgs ->
         cache (run msgs (next (on_request q s botType id out))).1 !! botType
         = Some files
         /\ fetched (on_request q'
                       (run msgs (next (on_request q s botType id out))).1
                       botType id' out') = []
         /\ (forall f, files !! id' = Some f ->
                       reply (on_request q'
                                (run msgs (next (on_request q s botType id out))).1
                                botType id' out')
                       = Some (read f out'))
         /\ (files !! id' = None ->
             reply (on_request q'
                      (run msgs (next (on_request q s botType id out))).1
                      botType id' out')
             = Some (out', Some (ConfigNotFoundError botType id')))).
Proof.
  intros H G.
  rewrite (on_request_miss_success Out callback yaml_Unmarshal json_Unmarshal
             path_Join cfg q s botType id out files H G).
  simpl. split; [reflexivity|]. split; [apply lookup_insert_eq|]. split.
  - intros q' id' out'.
    rewrite (on_request_hit Out callback yaml_Unmarshal json_Unmarshal
               path_Join cfg q' _ botType id' out' files)
      by apply lookup_insert_eq.
    simpl. unfold githubconfig.answer. split; [reflexivity|]. split.
    + now intros f ->.
    + now intros ->.
  - intros msgs q' id' out' HF.
    pose proof (run_keeps_entry botType msgs
                  {| cache := <[botType := files]> (cache s);
                     subscription := subscription s |} files HF
                  (lookup_insert_eq (cache s) botType files)) as Hc.
    split; [exact Hc|].
    rewrite (on_request_hit Out callback yaml_Unmarshal json_Unmarshal
               path_Join cfg q' _ botType id' out' files Hc).
    simpl. unfold githubconfig.answer. split; [reflexivity|]. split.
    + now intros f ->.
    + now intros ->.
Qed.

(** ** Ticks *)

(** The loop calls [get] once in each turn, fail or not. *)
Lemma reconcile_calls (q : querier)
      (l : list (string * gmap string callback)) (acc : tick_acc callback) :
  (foldl (reconcile q) acc l).2 = acc.2 ++ l.*1.
Proof.
  revert acc. induction l as [|[k sub] l IH]; intros [[c gos] calls].
  - simpl. now rewrite app_nil_r.
  - rewrite foldl_step, reconcile_at.
    destruct (get q k); rewrite IH; simpl; now rewrite <- app_assoc.
Qed.

Lemma on_tick_fetched (q : querier) (s : state callback) :
  fetched (on_tick q s) = (map_to_list (subscription s)).*1.
Proof. rewrite on_tick_fold. simpl. now rewrite reconcile_calls. Qed.

(** A bot type without subscriptions is passed over. *)
Lemma on_tick_unsubscribed (q : querier) (s : state callback)
      (botType : BotType) :
  subscription s !! botType = None ->
  cache (next (on_tick q s)) !! botType = cache s !! botType
  /\ Forall (fun g => spawn_botType g <> botType) (started (on_tick q s))
  /\ botType ∉ fetched (on_tick q s).
Proof.
  intros H.
  assert (botType ∉ (map_to_list (subscription s)).*1) as Hnot.
  { rewrite elem_of_keys, H. now intros [? ?]. }
  split; [|split].
  - rewrite on_tick_fold. simpl.
    now destruct (reconcile_others callback path_Join cfg q botType _ Hnot
                    (cache s, [], [])) as [Hc _].
  - rewrite on_tick_fold. simpl.
    destruct (reconcile_others callback path_Join cfg q botType _ Hnot
                (cache s, [], [])) as [_ (more & -> & Hm)].
    exact Hm.
  - now rewrite on_tick_fetched.
Qed.

(** X7: a tick calls [get] exactly once for each bot type that has a
    subscription, whether the call fails or not, and for no other bot type;
    it leaves the subscription table as it was and sends no reply. *)
Theorem tick_fetches_subscribed (q : querier) (s : state callback) :
  NoDup (fetched (on_tick q s))
  /\ (forall botType,
         botType ∈ fetched (on_tick q s)
         <-> is_Some (subscription s !! botType))
  /\ subscription (next (on_tick q s)) = subscription s
  /\ reply (on_tick q s) = None.
Proof.
  rewrite on_tick_fetched. split; [apply NoDup_fst_map_to_list|].
  split; [intros botType; apply elem_of_keys|].
  now rewrite on_tick_fold.
Qed.

(** X8: a tick does nothing for a bot type without subscriptions: its cache
    entry stays as it was, also when there is none, and no goroutine is
    started for it. *)
Theorem tick_skips_unsubscribed (q : querier) (s : state callback)
        (botType : BotType) :
  subscription s !! botType = None ->
  cache (next (on_tick q s)) !! botType = cache s !! botType
  /\ Forall (fun g => spawn_botType g <> botType) (started (on_tick q s))
  /\ (forall id, dispatches botType id (started (on_tick q s)) = 0)
  /\ botType ∉ fetched (on_tick q s).
Proof.
  intros H. destruct (on_tick_unsubscribed q s botType H) as (Hc & Hs & Hf).
  split; [exact Hc|]. split; [exact Hs|]. split; [|exact Hf].
  intros id. now apply dispatches_other_bot.
Qed.

(** X9: after an unsubscription the ticks that follow pass the bot type
    over: no call of [get], no goroutine, and still no cache entry. *)
Theorem tick_after_unsubscribe (q : querier) (s : state callback)
        (botType : BotType) :
  cache (next (on_tick q (next (on_unsubscription s botType)))) !! botType
  = None
  /\ Forall (fun g => spawn_botType g <> botType)
            (started (on_tick q (next (on_unsubscription s botType))))
  /\ botType ∉ fetched (on_tick q (next (on_unsubscription s botType))).
Proof.
  destruct (on_tick_unsubscribed q (next (on_unsubscription s botType)) botType)
    as (Hc & Hs & Hf); [apply lookup_delete_eq|].
  split; [|split; [exact Hs | exact Hf]].
  rewrite Hc. apply lookup_delete_eq.
Qed.

Lemma notify_sound (botType : BotType) (files cached : gmap string file)
      (sub : gmap string callback) (g : spawn callback) :
  g ∈ notify botType files cached sub ->
  spawn_botType g = botType
  /\ sub !! spawn_id g = Some (spawn_callback g)
  /\ exists f, files !! spawn_id g = Some f /\ changed cached f = true.
Proof.
  unfold notify. intros H.
  apply list_elem_of_omap in H as ([k cb] & Hin & E).
  apply elem_of_map_to_list in Hin. unfold notify_one in E. simpl in E.
  destruct (files !! k) as [f|] eqn:L; [|discriminate].
  destruct (changed cached f) eqn:C; [|discriminate].
  inversion E; subst g. simpl. eauto.
Qed.

(** X10: every goroutine a tick starts runs the callback registered for its
    bot type and id, for a file that the fetch of this tick returned under
    that id and that the comparison of line 147 found changed; no bot type
    and id gets more than one goroutine in a tick, and a subscribed id that
    the fresh set lacks gets none. *)
Theorem tick_dispatch_sound (q : querier) (s : state callback) :
  (forall g,
      g ∈ started (on_tick q s) ->
      exists sub files f,
        subscription s !! spawn_botType g = Some sub
        /\ sub !! spawn_id g = Some (spawn_callback g)
        /\ get q (spawn_botType g) = inr files
        /\ files !! spawn_id g = Some f
        /\ changed (default files (cache s !! spawn_botType g)) f = true)
  /\ (forall botType id, dispatches botType id (started (on_tick q s)) <= 1)
  /\ (forall botType sub files id,
         subscription s !! botType = Some sub ->
         get q botType = inr files ->
         files !! id = None ->
         dispatches botType id (started (on_tick q s)) = 0).
Proof.
  split; [|split].
  - intros g Hg.
    destruct (subscription s !! spawn_botType g) as [sub|] eqn:L.
    + destruct (on_tick_at Out callback path_Join cfg q s _ sub L)
        as (before & after & E & Hb & Ha & _).
      rewrite E in Hg. apply elem_of_app in Hg as [Hg|Hg].
      { rewrite Forall_forall in Hb. now destruct (Hb g Hg). }
      apply elem_of_app in Hg as [Hg|Hg].
      2:{ rewrite Forall_forall in Ha. now destruct (Ha g Hg). }
      destruct (get q (spawn_botType g)) as [err|files] eqn:G;
        [now apply elem_of_nil in Hg|].
      apply notify_sound in Hg as (_ & Hsub & f & Hf & Hc).
      exists sub, files, f. auto.
    + destruct (on_tick_unsubscribed q s _ L) as (_ & Hall & _).
      rewrite Forall_forall in Hall. now destruct (Hall g Hg).
  - intros botType id.
    destruct (subscription s !! botType) as [sub|] eqn:L.
    + destruct (on_tick_at Out callback path_Join cfg q s _ sub L)
        as (before & after & E & Hb & Ha & _).
      rewrite E, (dispatches_at callback _ _ _ _ _ Hb Ha).
      destruct (get q botType) as [err|files]; [unfold dispatches; simpl; lia|].
      destruct (sub !! id) as [cb|] eqn:Hid.
      * rewrite (notify_dispatches callback _ _ _ _ _ _ Hid).
        destruct (files !! id); [|lia]. destruct (changed _ _); lia.
      * unfold notify. rewrite notify_list_absent; [lia|].
        rewrite elem_of_keys, Hid. now intros [? ?].
    + destruct (on_tick_unsubscribed q s _ L) as (_ & Hall & _).
      rewrite (dispatches_other_bot callback _ _ _ Hall). lia.
  - intros botType sub files id L G Hf.
    destruct (on_tick_at Out callback path_Join cfg q s _ sub L)
      as (before & after & E & Hb & Ha & _).
    rewrite E, (dispatches_at callback _ _ _ _ _ Hb Ha), G.
    destruct (sub !! id) as [cb|] eqn:Hid.
    + rewrite (notify_dispatches callback _ _ _ _ _ _ Hid). now rewrite Hf.
    + unfold notify. apply notify_list_absent.
      rewrite elem_of_keys, Hid. now intros [? ?].
Qed.

(** A loop over bot types whose fetched sets are the cached ones changes
    nothing. *)
Lemma reconcile_quiet (q : querier) (c : gmap string (gmap string file))
      (l : list (string * gmap string callback)) :
  (forall kv files,
      kv ∈ l -> get q kv.1 = inr files -> c !! kv.1 = Some files) ->
  forall gos calls,
    foldl (reconcile q) (c, gos, calls) l = (c, gos, calls ++ l.*1).
Proof.
  induction l as [|[k sub] l IH]; intros H gos calls.
  - simpl. now rewrite app_nil_r.
  - rewrite foldl_step, reconcile_at.
    assert (forall kv files,
               kv ∈ l -> get q kv.1 = inr files -> c !! kv.1 = Some files)
      as H'.
    { intros kv files Hin. apply H. now right. }
    destruct (get q k) as [err|files] eqn:G.
    + rewrite (IH H'). simpl. now rewrite <- app_assoc.
    + pose proof (H (k, sub) files (list_elem_of_here _ _) G) as Hc.
      simpl in Hc. rewrite Hc. simpl.
      rewrite (insert_id _ _ _ Hc).
      rewrite (notify_baseline callback path_Join cfg q k files sub G).
      rewrite app_nil_r, (IH H'). simpl. now rewrite <- app_assoc.
Qed.

(** X11: when the client answers a second tick as it answered the first, the
    second tick starts no goroutine and leaves the cache and the
    subscription table as the first left them. *)
Theorem tick_twice_quiet (q : querier) (s : state callback) :
  started (on_tick q (next (on_tick q s))) = []
  /\ next (on_tick q (next (on_tick q s))) = next (on_tick q s).
Proof.
  assert (forall kv files,
             kv ∈ map_to_list (subscription s) ->
             get q kv.1 = inr files ->
             cache (next (on_tick q s)) !! kv.1 = Some files) as H.
  { intros [k sub] files Hin G. apply elem_of_map_to_list in Hin. simpl in *.
    destruct (on_tick_at Out callback path_Join cfg q s k sub Hin)
      as (_ & _ & _ & _ & _ & C).
    now rewrite G in C. }
  rewrite (on_tick_fold Out callback path_Join cfg q (next (on_tick q s))).
  assert (subscription (next (on_tick q s)) = subscription s) as ->
      by now rewrite on_tick_fold.
  simpl. rewrite (reconcile_quiet q _ _ H). simpl. split; [reflexivity|].
  rewrite (on_tick_fold Out callback path_Join cfg q s). reflexivity.
Qed.

(** X12: after a tick whose fetch for a subscribed bot type succeeded, a
    request for that bot type is answered from the fresh set without a call
    of [get]: with what [read] returns for the file of the id, or with
    [ConfigNotFoundError] when the fresh set lacks the id. *)
Theorem tick_then_request (q q' : querier) (s : state callback)
        (botType : BotType) (sub : gmap string callback)
        (files : gmap string file) (id : string) (out : Out) :
  subscription s !! botType = Some sub ->
  get q botType = inr files ->
  fetched (on_request q' (next (on_tick q s)) botType id out) = []
  /\ (forall f, files !! id = Some f ->
                reply (on_request q' (next (on_tick q s)) botType id out)
                = Some (read f out))
  /\ (files !! id = None ->
      reply (on_request q' (next (on_tick q s)) botType id out)
      = Some (out, Some (ConfigNotFoundError botType id))).
Proof.
  intros L G.
  destruct (on_tick_at Out callback path_Join cfg q s botType sub L)
    as (_ & _ & _ & _ & _ & C).
  rewrite G in C.
  rewrite (on_request_hit Out callback yaml_Unmarshal json_Unmarshal
             path_Join cfg q' _ botType id out files C).
  simpl. unfold githubconfig.answer. split; [reflexivity|]. split.
  - now intros f ->.
  - now intros ->.
Qed.

(** ** The loop *)

Lemma keyed_insert (c : gmap string (gmap string file)) (botType : BotType)
      (files : gmap string file) :
  keyed c ->
  (forall k f, files !! k = Some f -> id f = k) ->
  keyed (<[botType := files]> c).
Proof.
  intros Hc Hf bt fs k f L. destruct (decide (botType = bt)) as [->|Hne].
  - rewrite lookup_insert_eq in L. inversion L; subst fs. apply Hf.
  - rewrite lookup_insert_ne in L by exact Hne. now apply (Hc bt fs).
Qed.

Lemma keyed_get (c : gmap string (gmap string file)) (q : querier)
      (botType : BotType) (files : gmap string file) :
  keyed c -> get q botType = inr files -> keyed (<[botType := files]> c).
Proof.
  intros Hc G. apply keyed_insert; [exact Hc|].
  intros k f. now apply (get_key path_Join cfg q botType files).
Qed.

Lemma keyed_reconcile (q : querier)
      (l : list (string * gmap string callback)) (acc : tick_acc callback) :
  keyed acc.1.1 -> keyed (foldl (reconcile q) acc l).1.1.
Proof.
  revert acc. induction l as [|[k sub] l IH]; intros [[c gos] calls] H;
    [exact H|].
  rewrite foldl_step, reconcile_at.
  destruct (get q k) as [err|files] eqn:G; apply IH; simpl in *;
    [exact H | now apply (keyed_get c q)].
Qed.

(** One turn of the loop keeps the two maps well formed. *)
Lemma handle_invariant (q : querier) (ev : event Out callback)
      (s : state callback) :
  keyed (cache s) -> inhabited (subscription s) ->
  keyed (cache (next (handle q ev s)))
  /\ inhabited (subscription (next (handle q ev s))).
Proof.
  intros Hk Hi. destruct ev as [|bt id cb|bt|bt id out|].
  - simpl. auto.
  - change (handle q (Subscribe bt id cb) s) with (on_subscription s bt id cb).
    rewrite on_subscription_next. simpl. split; [exact Hk|].
    intros bt' sub L. destruct (decide (bt = bt')) as [->|Hne].
    + rewrite lookup_insert_eq in L. inversion L. apply insert_non_empty.
    + rewrite lookup_insert_ne in L by exact Hne. now apply (Hi bt').
  - simpl. split.
    + intros bt' fs k f L. apply lookup_delete_Some in L as [_ L].
      now apply (Hk bt' fs).
    + intros bt' sub L. apply lookup_delete_Some in L as [_ L].
      now apply (Hi bt').
  - change (handle q (ReadRequest bt id out) s) with (on_request q s bt id out).
    unfold githubconfig.on_request.
    destruct (cache s !! bt) as [fs|] eqn:L; [auto|].
    destruct (get q bt) as [err|files] eqn:G; simpl; (split; [|exact Hi]).
    + apply keyed_insert; [exact Hk|]. intros k f E.
      now rewrite lookup_empty in E.
    + rewrite insert_insert_eq. now apply (keyed_get _ q).
  - change (handle q Tick s) with (on_tick q s).
    rewrite on_tick_fold. simpl. split; [|exact Hi].
    now apply keyed_reconcile.
Qed.

Lemma run_invariant (msgs : list (querier * event Out callback))
      (s : state callback) :
  keyed (cache s) -> inhabited (subscription s) ->
  keyed (cache (run msgs s).1) /\ inhabited (subscription (run msgs s).1).
Proof.
  revert s. induction msgs as [|[q ev] msgs IH]; intros s Hk Hi; [auto|].
  destruct (handle_invariant q ev s Hk Hi) as [Hk' Hi'].
  simpl. destruct (stopped (handle q ev s)); [auto|].
  specialize (IH _ Hk' Hi').
  now destruct (run msgs (next (handle q ev s))).
Qed.

(** X13: in every state the loop reaches from its start, whatever the
    messages and whatever the client answers, each cached file sits under its
    own id and each bot type of the subscription table has at least one
    callback. *)
Theorem reachable_well_formed (msgs : list (querier * event Out callback)) :
  keyed (cache (run msgs initial).1)
  /\ inhabited (subscription (run msgs initial).1).
Proof.
  apply run_invariant.
  - intros bt fs k f L. unfold initial in L. cbn [cache] in L.
    now rewrite lookup_empty in L.
  - intros bt sub L. unfold initial in L. cbn [subscription] in L.
    now rewrite lookup_empty in L.
Qed.

Lemma stopped_iff_Done (q : querier) (ev : event Out callback)
      (s : state callback) :
  stopped (handle q ev s) = true <-> ev = Done.
Proof.
  destruct ev as [|bt id cb|bt|bt id out|].
  - split; reflexivity.
  - split; discriminate.
  - split; discriminate.
  - change (handle q (ReadRequest bt id out) s) with (on_request q s bt id out).
    unfold githubconfig.on_request.
    destruct (cache s !! bt); [split; discriminate|].
    destruct (get q bt); split; discriminate.
  - change (handle q Tick s) with (on_tick q s).
    rewrite on_tick_fold. split; discriminate.
Qed.

(** X14: the loop returns at the cancellation: the messages before it are
    each handled, the cancellation changes neither map, and no message after
    it is handled. *)
Theorem run_stops_at_Done (before after : list (querier * event Out callback))
        (q : querier) (s : state callback) :
  Forall (fun m => m.2 <> Done) before ->
  (run (before ++ (q, Done) :: after) s).1 = (run before s).1
  /\ (run (before ++ (q, Done) :: after) s).2
     = (run before s).2 ++ [on_done (run before s).1]
  /\ length (run before s).2 = length before.
Proof.
  revert s. induction before as [|[q' ev] before IH]; intros s H.
  - simpl. auto.
  - apply Forall_cons in H as [Hev H]. simpl in Hev.
    simpl. destruct (stopped (handle q' ev s)) eqn:E.
    + apply stopped_iff_Done in E. contradiction.
    + destruct (IH (next (handle q' ev s)) H) as (A & B & C).
      destruct (run (before ++ (q, Done) :: after) (next (handle q' ev s)))
        as [s1 os1].
      destruct (run before (next (handle q' ev s))) as [s2 os2].
      simpl in *. subst. split; [reflexivity|]. split; [reflexivity|].
      now rewrite C.
Qed.

End Actor.

(** * More of the construction and of [get] *)

(** ** Options *)

Lemma apply_options_snoc (opts : list Option) (opt : Option) (w : watcher) :
  apply_options (opts ++ [opt]) w = opt (apply_options opts w).
Proof. unfold apply_options. now rewrite foldl_snoc. Qed.

Lemma apply_options_config (NewClient : string -> querier)
      (opts : list Option) (w : watcher) :
  Forall (fun opt => (exists q, opt = WithClient q)
                     \/ (exists token, opt = WithToken NewClient token)) opts ->
  config (apply_options opts w) = config w.
Proof.
  induction opts as [|opt opts IH] using rev_ind; intros H; [reflexivity|].
  apply Forall_app in H as [H Hopt]. apply Forall_cons in Hopt as [Hopt _].
  rewrite apply_options_snoc.
  destruct Hopt as [[q ->]|[token ->]]; simpl; now apply IH.
Qed.

(** X15: with one or more options, each made by [WithClient] or [WithToken],
    [New] returns a watcher and no error; the watcher has the given
    configuration and the client of the option that comes last. *)
Theorem New_with_options (NewClient : string -> querier) (c : Config)
        (opts : list Option) :
  Forall (fun opt => (exists q, opt = WithClient q)
                     \/ (exists token, opt = WithToken NewClient token)) opts ->
  opts <> [] ->
  exists w,
    New c opts = inr w
    /\ config w = c
    /\ (forall opts' q, opts = opts' ++ [WithClient q] -> client w = Some q)
    /\ (forall opts' token,
           opts = opts' ++ [WithToken NewClient token] ->
           client w = Some (NewClient token)).
Proof.
  intros H Hne.
  exists (apply_options opts {| client := None; config := c |}).
  split; [|split; [|split]].
  - destruct opts as [|opt opts _] using rev_ind; [congruence|].
    apply Forall_app in H as [_ Hopt]. apply Forall_cons in Hopt as [Hopt _].
    unfold New. rewrite apply_options_snoc.
    destruct Hopt as [[q ->]|[token ->]]; reflexivity.
  - now rewrite (apply_options_config NewClient).
  - intros opts' q ->. now rewrite apply_options_snoc.
  - intros opts' token ->. now rewrite apply_options_snoc.
Qed.

(** ** File names *)

Lemma get_app_r (a b : string) (n : nat) :
  String.get (String.length a + n) (a +:+ b) = String.get n b.
Proof. induction a as [|c a IH]; [reflexivity|]. rewrite app_String. exact IH. Qed.

Lemma get_lt (s : string) (n : nat) :
  n < String.length s -> exists c, String.get n s = Some c.
Proof.
  revert n. induction s as [|d s IH]; intros n H; simpl in *; [lia|].
  destruct n as [|n]; [eauto|]. apply IH. lia.
Qed.

Lemma plain_get (s : string) (n : nat) (c : ascii) :
  plain s = true -> String.get n s = Some c ->
  byte_eqb c "/" = false /\ byte_eqb c "." = false.
Proof.
  revert n. induction s as [|d s IH]; intros n P G; simpl in *; [discriminate|].
  apply andb_prop in P as [P Ps]. apply andb_prop in P as [P1 P2].
  destruct n as [|n].
  - inversion G; subst d. split; now apply negb_true_iff.
  - now apply (IH n).
Qed.

(** Without a dot there is no extension. *)
Lemma Ext_plain (s : string) : plain s = true -> Ext s = "".
Proof.
  intros P. unfold Ext. generalize (String.length s) as n.
  induction n as [|n IH]; [reflexivity|]. simpl.
  destruct (String.get n s) as [c|] eqn:G; [|reflexivity].
  destruct (plain_get s n c P G) as [-> ->]. exact IH.
Qed.

(** The extension starts at the last dot. *)
Lemma Ext_app (stem rest : string) :
  plain rest = true -> Ext (stem +:+ String "." rest) = String "." rest.
Proof.
  intros P. unfold Ext. rewrite length_app_string. simpl String.length.
  replace (String.length stem + S (String.length rest))
    with (S (String.length stem + String.length rest)) by lia.
  generalize (Nat.le_refl (String.length rest)).
  generalize (String.length rest) at 1 3 as n.
  induction n as [|n IH]; intros Hn.
  - simpl. rewrite get_app_r. simpl. rewrite Nat.add_0_r.
    rewrite length_app_string. simpl String.length.
    replace (String.length stem + S (String.length rest) - String.length stem)
      with (String.length (String "." rest)) by (simpl; lia).
    apply substring_app_r.
  - simpl. rewrite get_app_r. simpl.
    destruct (get_lt rest n) as [c G]; [lia|]. rewrite G.
    destruct (plain_get rest n c P G) as [-> ->].
    rewrite Nat.add_succ_r. apply IH. lia.
Qed.

(** X16: a listed name that ends in a dot followed by bytes that are neither
    dots nor slashes is split at that dot: the id is all that comes before
    it, dots included, and the extension is the dot and what follows; the
    object id and the text are taken over as they are. *)
Theorem file_of_entry_splits (stem rest oid text : string) :
  plain rest = true ->
  file_of_entry (mkEntry (stem +:+ String "." rest) oid text)
  = {| id := stem;
       fileName := stem +:+ String "." rest;
       extension := String "." rest;
       objectID := oid;
       content := text |}.
Proof.
  intros P. unfold file_of_entry. simpl.
  rewrite (Ext_app stem rest P). now rewrite TrimSuffix_app.
Qed.

(** X17: a listed name without a dot and without a slash has the empty
    extension and is its own id; the file is kept in the map like any other,
    and a read of it returns the unsupported-extension error and leaves the
    target as it was. *)
Theorem read_without_extension (Out : Type)
        (yaml_Unmarshal json_Unmarshal : string -> Out -> Out * option error)
        (name oid text : string) (out : Out) :
  plain name = true ->
  file_of_entry (mkEntry name oid text)
  = {| id := name; fileName := name; extension := "";
       objectID := oid; content := text |}
  /\ collect [mkEntry name oid text] !! name
     = Some (file_of_entry (mkEntry name oid text))
  /\ read Out yaml_Unmarshal json_Unmarshal
          (file_of_entry (mkEntry name oid text)) out
     = (out,
        Some (errorString ("unsupported file extension for " +:+ name
                           +:+ ": "))).
Proof.
  intros P.
  assert (file_of_entry (mkEntry name oid text)
          = {| id := name; fileName := name; extension := "";
               objectID := oid; content := text |}) as E.
  { unfold file_of_entry. simpl. rewrite (Ext_plain name P).
    rewrite <- (app_empty_r name) at 1. now rewrite TrimSuffix_app. }
  split; [exact E|]. split.
  - assert (id (file_of_entry (mkEntry name oid text)) = name) as Hid
        by now rewrite E.
    change (collect [mkEntry name oid text])
      with (<[id (file_of_entry (mkEntry name oid text))
              := file_of_entry (mkEntry name oid text)]>
              (∅ : gmap string file)).
    rewrite Hid. apply lookup_insert_eq.
  - rewrite E. reflexivity.
Qed.

(** ** The collected map *)

Lemma collect_snoc (entries : list entry) (e : entry) :
  collect (entries ++ [e])
  = <[id (file_of_entry e) := file_of_entry e]> (collect entries).
Proof. unfold collect. apply collect_into_snoc. Qed.

(** X18: the ids of the collected map are exactly the ids of the listed
    entries, so an empty listing gives the empty map and the map never has
    more files than the listing has entries; when the listed entries have
    different ids, each of them is in the map under its id. *)
Theorem collect_domain (entries : list entry) :
  (forall k,
      is_Some (collect entries !! k)
      <-> exists e, e ∈ entries /\ id (file_of_entry e) = k)
  /\ collect [] = ∅
  /\ size (collect entries) <= length entries
  /\ (NoDup ((fun e => id (file_of_entry e)) <$> entries) ->
      forall e, e ∈ entries ->
                collect entries !! id (file_of_entry e)
                = Some (file_of_entry e)).
Proof.
  split; [|split; [reflexivity|split]].
  - intros k. split.
    + intros [f L]. apply collect_lookup in L as [Hk (e & He & ->)]. eauto.
    + intros (e & He & <-).
      induction entries as [|e' entries IH] using rev_ind;
        [now apply elem_of_nil in He|].
      rewrite collect_snoc.
      destruct (decide (id (file_of_entry e') = id (file_of_entry e)))
        as [Heq|Hne].
      * rewrite Heq, lookup_insert_eq. eauto.
      * rewrite lookup_insert_ne by exact Hne. apply IH.
        apply elem_of_app in He as [He|He]; [exact He|].
        apply list_elem_of_singleton in He. congruence.
  - induction entries as [|e entries IH] using rev_ind.
    + change (collect []) with (∅ : gmap string file).
      rewrite map_size_empty. simpl. lia.
    + rewrite collect_snoc, length_app. cbn [length].
      destruct (collect entries !! id (file_of_entry e)) as [f|] eqn:L.
      * rewrite map_size_insert_Some by (rewrite L; eauto). lia.
      * rewrite map_size_insert_None by exact L. lia.
  - intros ND e He. apply list_elem_of_split in He as (l1 & l2 & ->).
    apply collect_last.
    rewrite fmap_app, fmap_cons in ND.
    apply NoDup_app in ND as (_ & _ & ND). apply NoDup_cons in ND as [Hnot _].
    apply Forall_forall. intros e' He' Heq. apply Hnot.
    apply list_elem_of_fmap. exists e'. split; [now rewrite Heq | exact He'].
Qed.

(** * The example watcher, continued *)

(** Subscriptions for [hello] and [bye] in either order. *)
Lemma subscribe_overwrites_commutes_witness :
  next (Hello.on_subscription
          (next (Hello.on_subscription initial "slackBot" "hello" 7))
          "slackBot" "bye" 8)
  = next (Hello.on_subscription
            (next (Hello.on_subscription initial "slackBot" "bye" 8))
            "slackBot" "hello" 7).
Proof.
  apply (proj2 (subscribe_overwrites_commutes Hello.Out Hello.callback initial
                  "slackBot" "slackBot" "hello" "bye" 7 8)).
  right. discriminate.
Defined.

(** [Unwatch] of a bot type the watcher has never seen. *)
Lemma unsubscribe_frame_witness :
  next (Hello.on_unsubscription Hello.watching_abc "discordBot")
  = Hello.watching_abc
  /\ cache (next (Hello.on_unsubscription Hello.watching_abc "discordBot"))
       !! "slackBot"
     = cache Hello.watching_abc !! "slackBot".
Proof.
  destruct (unsubscribe_frame Hello.Out Hello.callback Hello.watching_abc
              "discordBot") as (A & B & _).
  split.
  - apply B; reflexivity.
  - apply (A "slackBot"). discriminate.
Defined.

(** A request for [hello] while [hello.yml] is cached and the client is
    offline. *)
Lemma request_hit_witness :
  next (Hello.on_request Hello.offline Hello.watching_abc "slackBot" "hello" "")
  = Hello.watching_abc
  /\ reply (Hello.on_request Hello.offline Hello.watching_abc
                             "slackBot" "hello" "")
     = Some (Hello.read (file_of_entry Hello.hello_abc) "").
Proof.
  destruct (request_hit Hello.Out Hello.callback Hello.yaml_Unmarshal
              Hello.json_Unmarshal Hello.path_Join Hello.cfg Hello.offline
              Hello.watching_abc "slackBot" "hello" ""
              (collect [Hello.hello_abc]))
    as (A & _ & _ & _ & B); [reflexivity|].
  split; [exact A|]. apply B. reflexivity.
Defined.

(** A request for [slackBot] leaves [discordBot] alone. *)
Lemma request_frame_witness :
  cache (next (Hello.on_request Hello.offline initial "slackBot" "hello" ""))
    !! "discordBot"
  = cache (initial : state Hello.callback) !! "discordBot".
Proof.
  destruct (request_frame Hello.Out Hello.callback Hello.yaml_Unmarshal
              Hello.json_Unmarshal Hello.path_Join Hello.cfg Hello.offline
              initial "slackBot" "hello" "")
    as (_ & _ & _ & _ & A & _).
  apply (A "discordBot"). discriminate.
Defined.

(** The first request of the example, the same request again, and once
    more after a subscription and a request for another id. *)
Lemma request_miss_then_hit_witness :
  let o := Hello.on_request (Hello.remote [Hello.hello_abc]) initial
                            "slackBot" "hello" "" in
  let msgs := [(Hello.offline, Subscribe "slackBot" "hello" 7);
               (Hello.remote [Hello.hello_def],
                ReadRequest "slackBot" "bye" "")] in
  reply o = Some ("", Some (ConfigNotFoundError "slackBot" "hello"))
  /\ reply (Hello.on_request Hello.offline (next o) "slackBot" "hello" "")
     = Some (Hello.read (file_of_entry Hello.hello_abc) "")
  /\ Forall (retains "slackBot") msgs
  /\ reply (Hello.on_request Hello.offline (Hello.run msgs (next o)).1
                             "slackBot" "hello" "")
     = Some (Hello.read (file_of_entry Hello.hello_abc) "").
Proof.
  assert (Forall (retains (Out := Hello.Out) (callback := Hello.callback)
                          "slackBot")
                 [(Hello.offline, Subscribe "slackBot" "hello" 7);
                  (Hello.remote [Hello.hello_def],
                   ReadRequest "slackBot" "bye" "")]) as HF.
  { repeat constructor. }
  destruct (request_miss_then_hit Hello.Out Hello.callback Hello.yaml_Unmarshal
              Hello.json_Unmarshal Hello.path_Join Hello.cfg
              (Hello.remote [Hello.hello_abc]) initial "slackBot" "hello" ""
              (collect [Hello.hello_abc]))
    as (A & _ & B & C); [reflexivity | reflexivity |].
  split; [exact A|].
  destruct (B Hello.offline "hello" "") as (_ & B1 & _).
  split; [apply B1; reflexivity|].
  split; [exact HF|].
  destruct (C _ Hello.offline "hello" "" HF) as (_ & _ & C1 & _).
  apply C1. reflexivity.
Defined.

(** A tick of the example watcher calls [get] for [slackBot]. *)
Lemma tick_fetches_subscribed_witness :
  "slackBot" ∈ fetched (Hello.on_tick Hello.offline Hello.watching).
Proof.
  destruct (tick_fetches_subscribed Hello.Out Hello.callback Hello.path_Join
              Hello.cfg Hello.offline Hello.watching) as (_ & A & _).
  apply (proj2 (A "slackBot")). exists {[ "hello" := 7 ]}.
  vm_compute. reflexivity.
Defined.

(** A tick of the example watcher passes [discordBot] over. *)
Lemma tick_skips_unsubscribed_witness :
  let o := Hello.on_tick (Hello.remote [Hello.hello_def]) Hello.watching_abc in
  cache (next o) !! "discordBot" = cache Hello.watching_abc !! "discordBot"
  /\ "discordBot" ∉ fetched o.
Proof.
  destruct (tick_skips_unsubscribed Hello.Out Hello.callback Hello.path_Join
              Hello.cfg (Hello.remote [Hello.hello_def]) Hello.watching_abc
              "discordBot") as (A & _ & _ & B); [vm_compute; reflexivity|].
  split; [exact A | exact B].
Defined.

(** A tick that finds [bye.json] only: [hello] has gone and gets no
    goroutine. *)
Lemma tick_dispatch_sound_witness :
  dispatches "slackBot" "hello"
             (started (Hello.on_tick (Hello.remote [Hello.bye_xyz])
                                     Hello.watching_abc))
  = 0.
Proof.
  destruct (tick_dispatch_sound Hello.Out Hello.callback Hello.path_Join
              Hello.cfg (Hello.remote [Hello.bye_xyz]) Hello.watching_abc)
    as (_ & _ & A).
  apply (A "slackBot" {[ "hello" := 7 ]} (collect [Hello.bye_xyz]) "hello");
    [vm_compute; reflexivity | reflexivity | vm_compute; reflexivity].
Defined.

(** The tick of the example that finds [hello.yml] changed, then a request
    while the client is offline. *)
Lemma tick_then_request_witness :
  let o := Hello.on_tick (Hello.remote [Hello.hello_def]) Hello.watching_abc in
  fetched (Hello.on_request Hello.offline (next o) "slackBot" "hello" "") = []
  /\ reply (Hello.on_request Hello.offline (next o) "slackBot" "hello" "")
     = Some (Hello.read (file_of_entry Hello.hello_def) "").
Proof.
  destruct (tick_then_request Hello.Out Hello.callback Hello.yaml_Unmarshal
              Hello.json_Unmarshal Hello.path_Join Hello.cfg
              (Hello.remote [Hello.hello_def]) Hello.offline Hello.watching_abc
              "slackBot" {[ "hello" := 7 ]} (collect [Hello.hello_def])
              "hello" "")
    as (A & B & _); [vm_compute; reflexivity | reflexivity |].
  split; [exact A|]. apply B. reflexivity.
Defined.

(** A subscription, the cancellation, and a tick that is never handled. *)
Lemma run_stops_at_Done_witness :
  (Hello.run ([(Hello.offline, Subscribe "slackBot" "hello" 7)]
              ++ (Hello.offline, Done)
              :: [(Hello.remote [Hello.hello_abc], Tick)]) initial).1
  = (Hello.run [(Hello.offline, Subscribe "slackBot" "hello" 7)] initial).1.
Proof.
  destruct (run_stops_at_Done Hello.Out Hello.callback Hello.yaml_Unmarshal
              Hello.json_Unmarshal Hello.path_Join Hello.cfg
              [(Hello.offline, Subscribe "slackBot" "hello" 7)]
              [(Hello.remote [Hello.hello_abc], Tick)]
              Hello.offline initial) as (A & _).
  - repeat constructor. simpl. discriminate.
  - exact A.
Defined.

(** [New] with a token and then a client. *)
Lemma New_with_options_witness :
  exists w,
    New Hello.cfg [WithToken Hello.NewClient "secret"; WithClient Hello.offline]
    = inr w
    /\ config w = Hello.cfg
    /\ client w = Some Hello.offline.
Proof.
  destruct (New_with_options Hello.NewClient Hello.cfg
              [WithToken Hello.NewClient "secret"; WithClient Hello.offline])
    as (w & A & B & C & _).
  - constructor; [right; eauto|]. constructor; [left; eauto|]. constructor.
  - discriminate.
  - exists w. split; [exact A|]. split; [exact B|].
    apply (C [WithToken Hello.NewClient "secret"] Hello.offline). reflexivity.
Defined.

(** [hello.v2.yml] is [hello.v2] with the extension [.yml]. *)
Lemma file_of_entry_splits_witness :
  file_of_entry (mkEntry "hello.v2.yml" "abc" "message: hi")
  = {| id := "hello.v2"; fileName := "hello.v2.yml"; extension := ".yml";
       objectID := "abc"; content := "message: hi" |}.
Proof.
  apply (file_of_entry_splits "hello.v2" "yml" "abc" "message: hi").
  reflexivity.
Defined.

(** A [README] in the directory. *)
Lemma read_without_extension_witness :
  Hello.read (file_of_entry (mkEntry "README" "abc" "hi")) "x"
  = ("x", Some (errorString "unsupported file extension for README: ")).
Proof.
  destruct (read_without_extension Hello.Out Hello.yaml_Unmarshal
              Hello.json_Unmarshal "README" "abc" "hi" "x")
    as (_ & _ & A); [reflexivity|].
  exact A.
Defined.

(** A directory with [hello.yml] and [bye.json]. *)
Lemma collect_domain_witness :
  collect [Hello.hello_abc; Hello.bye_xyz] !! "hello"
  = Some (file_of_entry Hello.hello_abc).
Proof.
  destruct (collect_domain [Hello.hello_abc; Hello.bye_xyz]) as (_ & _ & _ & A).
  assert (NoDup ((fun e => id (file_of_entry e))
                   <$> [Hello.hello_abc; Hello.bye_xyz])) as ND.
  { change (NoDup ["hello"; "bye"]).
    constructor; [|constructor; [|constructor]].
    - intros H. apply list_elem_of_singleton in H. discriminate.
    - intros H. inversion H. }
  apply (A ND Hello.hello_abc). now left.
Defined.
